(** * AnimalGame: a shallow embedding of [AnimalGame.py] and its properties

    The game is played on a 7x7 grid between TANGERINE and AMETHYST.  The
    Python module keeps the board in a [dict] from coordinate strings such
    as ['a1'] to piece objects (or [None]), and [make_move] validates and
    applies one move.

    Conventions of the embedding:
    - a Python [str] is a [string]; a one-character string obtained by
      indexing ([start[0]]) is an [ascii] character (code points below 256);
    - a Python [int] is a [Z];
    - the two colour strings and the three game-state strings are
      enumerations;
    - the [dict] is a [gmap string (option Piece)]: a key may be absent, or
      present with value [None], exactly as in the Python code;
    - an exception is an explicit [Raise] outcome.  Every statement of
      [make_move] that can raise comes before its first assignment to
      [self], so a raising call leaves the game untouched;
    - the [while] loop of [_path_clear] is a fuelled recursion; the fuel
      handed to it by [_path_clear] is shown to be never exhausted. *)

From Stdlib Require Import ZArith String Ascii List Lia DecimalString.
From stdpp Require Import gmap strings.

Open Scope Z_scope.

(** ** Python outcomes: a value, an exception, or fuel exhaustion *)

Inductive exn : Type := ValueError | IndexError.

Inductive outcome (A : Type) : Type :=
| Ok (a : A)
| Raise (e : exn)
| OutOfFuel.

Arguments Ok {A} a.
Arguments Raise {A} e.
Arguments OutOfFuel {A}.

#[global] Instance outcome_ret : MRet outcome := fun A a => Ok a.

#[global] Instance outcome_bind : MBind outcome := fun A B f m =>
  match m with
  | Ok a => f a
  | Raise e => Raise e
  | OutOfFuel => OutOfFuel
  end.

#[global] Instance exn_eq_dec : EqDecision exn.
Proof. solve_decision. Defined.

(** ** The Python primitives the module uses *)

(** [s[i]] on a string, for a non-negative literal index. *)
Definition str_getitem (s : string) (i : nat) : outcome ascii :=
  match String.get i s with
  | Some c => Ok c
  | None => Raise IndexError
  end.

(** [l.index(x)]: position of the first occurrence, [ValueError] if none. *)
Fixpoint list_index (l : list ascii) (x : ascii) : outcome Z :=
  match l with
  | [] => Raise ValueError
  | y :: l' => if decide (y = x) then Ok 0 else i ← list_index l' x; Ok (1 + i)
  end.

(** [l[i]] on a list: a negative index counts from the end. *)
Definition list_getitem {A : Type} (l : list A) (i : Z) : outcome A :=
  let n := Z.of_nat (length l) in
  let j := if decide (i < 0) then i + n else i in
  if decide (0 <= j < n) then
    match l !! Z.to_nat j with
    | Some a => Ok a
    | None => Raise IndexError
    end
  else Raise IndexError.

(** [int(c)] on a one-character string: a decimal digit or [ValueError]. *)
Definition int (c : ascii) : outcome Z :=
  let n := Z.of_nat (nat_of_ascii c) in
  if decide (48 <= n <= 57) then Ok (n - 48) else Raise ValueError.

(** [str(n)] on an integer. *)
Definition str (n : Z) : string := NilZero.string_of_int (Z.to_int n).

(** [d.get(k)] on a dictionary whose values may be [None]. *)
Definition dict_get {V : Type} (d : gmap string (option V)) (k : string) : option V :=
  match d !! k with
  | Some v => v
  | None => None
  end.

(** ** Pieces *)

Inductive Color : Type := TANGERINE | AMETHYST.

#[global] Instance Color_eq_dec : EqDecision Color.
Proof. solve_decision. Defined.

(** The four subclasses of [Piece]; the argument is the [_color] field. *)
Inductive Piece : Type :=
| Chinchilla (_color : Color)
| Wombat (_color : Color)
| Emu (_color : Color)
| Cuttlefish (_color : Color).

#[global] Instance Piece_eq_dec : EqDecision Piece.
Proof. solve_decision. Defined.

Definition color (self : Piece) : Color :=
  match self with
  | Chinchilla c | Wombat c | Emu c | Cuttlefish c => c
  end.

Definition symbol (self : Piece) : string :=
  match self with
  | Chinchilla _ => "C"
  | Wombat _ => "W"
  | Emu _ => "E"
  | Cuttlefish _ => "U"
  end.

Definition COLUMNS : list ascii :=
  ["a"; "b"; "c"; "d"; "e"; "f"; "g"]%char.

Abbreviation Board := (gmap string (option Piece)).

(** [abs(COLUMNS.index(start[0]) - COLUMNS.index(end[0]))] *)
Definition column_difference (start end_ : string) : outcome Z :=
  c0 ← str_getitem start 0;
  i0 ← list_index COLUMNS c0;
  c1 ← str_getitem end_ 0;
  i1 ← list_index COLUMNS c1;
  Ok (Z.abs (i0 - i1)).

(** [abs(int(start[1]) - int(end[1]))] *)
Definition row_difference (start end_ : string) : outcome Z :=
  c0 ← str_getitem start 1;
  r0 ← int c0;
  c1 ← str_getitem end_ 1;
  r1 ← int c1;
  Ok (Z.abs (r0 - r1)).

Definition Chinchilla_valid_move (start end_ : string) (board : Board) : outcome bool :=
  dx ← column_difference start end_;
  dy ← row_difference start end_;
  Ok (bool_decide (Z.max dx dy = 1)).

Definition Wombat_valid_move (start end_ : string) (board : Board) : outcome bool :=
  dx ← column_difference start end_;
  dy ← row_difference start end_;
  let abs_dx := Z.abs dx in
  let abs_dy := Z.abs dy in
  Ok ((bool_decide (abs_dx = 4) && bool_decide (dy = 0))
      || (bool_decide (abs_dy = 4) && bool_decide (dx = 0))
      || (bool_decide (abs_dx = 1) && bool_decide (abs_dy = 1))).

Definition Emu_valid_move (start end_ : string) (board : Board) : outcome bool :=
  dx ← column_difference start end_;
  dy ← row_difference start end_;
  if bool_decide (dx = 0) && (bool_decide (1 <= dy) && bool_decide (dy <= 3)) then Ok true
  else if bool_decide (dy = 0) && (bool_decide (1 <= dx) && bool_decide (dx <= 3)) then Ok true
  else if bool_decide (dx = 1) && bool_decide (dy = 1) then Ok true
  else Ok false.

Definition Cuttlefish_valid_move (start end_ : string) (board : Board) : outcome bool :=
  dx ← column_difference start end_;
  dy ← row_difference start end_;
  Ok ((bool_decide (dx = 2) && bool_decide (dy = 2))
      || (bool_decide (dx = 1) && bool_decide (dy = 0))
      || (bool_decide (dx = 0) && bool_decide (dy = 1))).

(** Method dispatch on the class of the piece. *)
Definition valid_move (self : Piece) (start end_ : string) (board : Board) : outcome bool :=
  match self with
  | Chinchilla _ => Chinchilla_valid_move start end_ board
  | Wombat _ => Wombat_valid_move start end_ board
  | Emu _ => Emu_valid_move start end_ board
  | Cuttlefish _ => Cuttlefish_valid_move start end_ board
  end.

(** ** The game controller *)

Inductive GameState : Type := UNFINISHED | TANGERINE_WON | AMETHYST_WON.

#[global] Instance GameState_eq_dec : EqDecision GameState.
Proof. solve_decision. Defined.

Record AnimalGame : Type := mkAnimalGame {
  _board : Board;
  _game_state : GameState;
  _turn : Color
}.

(** An unknown name falls through every branch: Python returns [None]. *)
Definition _create_piece (name : string) (color : Color) : option Piece :=
  if decide (name = "chinchilla") then Some (Chinchilla color)
  else if decide (name = "wombat") then Some (Wombat color)
  else if decide (name = "emu") then Some (Emu color)
  else if decide (name = "cuttlefish") then Some (Cuttlefish color)
  else None.

Definition row_order : list string :=
  ["chinchilla"; "wombat"; "emu"; "cuttlefish"; "emu"; "wombat"; "chinchilla"].

(** The body of the [for index, name in enumerate(row_order)] loop. *)
Definition place_column (board : Board) (index : Z) (name : string) : outcome Board :=
  c1 ← list_getitem COLUMNS index;
  let board := <[String c1 "1" := _create_piece name TANGERINE]> board in
  c7 ← list_getitem COLUMNS index;
  let board := <[String c7 "7" := _create_piece name AMETHYST]> board in
  Ok board.

Fixpoint place_from (board : Board) (index : Z) (names : list string) : outcome Board :=
  match names with
  | [] => Ok board
  | name :: names' =>
      board' ← place_column board index name;
      place_from board' (index + 1) names'
  end.

Definition _place_initial_pieces (board : Board) : outcome Board :=
  place_from board 0 row_order.

Definition __init__ : outcome AnimalGame :=
  board ← _place_initial_pieces ∅;
  Ok {| _board := board; _game_state := UNFINISHED; _turn := TANGERINE |}.

Definition get_game_state (self : AnimalGame) : GameState := _game_state self.

(** The [while column != column_end or row != row_end] loop. *)
Fixpoint path_loop (fuel : nat) (board : Board)
    (step_column step_row column_end row_end column row : Z) : outcome bool :=
  match fuel with
  | O => OutOfFuel
  | S fuel' =>
      if bool_decide (column ≠ column_end) || bool_decide (row ≠ row_end) then
        c ← list_getitem COLUMNS column;
        let position := String c "" +:+ str row in
        match dict_get board position with
        | Some _ => Ok false
        | None =>
            path_loop fuel' board step_column step_row column_end row_end
              (column + step_column) (row + step_row)
        end
      else Ok true
  end.

Definition _path_clear_fuel (fuel : nat) (board : Board) (start end_ : string) : outcome bool :=
  c ← str_getitem start 0;
  column_start ← list_index COLUMNS c;
  c ← str_getitem start 1;
  row_start ← int c;
  c ← str_getitem end_ 0;
  column_end ← list_index COLUMNS c;
  c ← str_getitem end_ 1;
  row_end ← int c;
  let dx := column_end - column_start in
  let dy := row_end - row_start in
  let step_column := if decide (dx = 0) then 0 else if decide (dx > 0) then 1 else -1 in
  let step_row := if decide (dy = 0) then 0 else if decide (dy > 0) then 1 else -1 in
  let column := column_start + step_column in
  let row := row_start + step_row in
  path_loop fuel board step_column step_row column_end row_end column row.

(** Fuel handed to the loop; [_path_clear_fuel_enough] below shows that the
    loop never needs more, whatever the arguments. *)
Definition path_fuel : nat := 16.

Definition _path_clear (board : Board) (start end_ : string) : outcome bool :=
  _path_clear_fuel path_fuel board start end_.

(** [isinstance(piece, Emu) or isinstance(piece, Chinchilla)] *)
Definition is_sliding (piece : Piece) : bool :=
  match piece with
  | Emu _ | Chinchilla _ => true
  | _ => false
  end.

(** [make_move] returns the boolean together with the game after the call. *)
Definition make_move (self : AnimalGame) (start end_ : string) : outcome (bool * AnimalGame) :=
  if decide (_game_state self ≠ UNFINISHED) then Ok (false, self) else
  match _board self !! start with
  | None | Some None => Ok (false, self)
  | Some (Some piece) =>
      if decide (color piece ≠ _turn self) then Ok (false, self) else
      shape ← valid_move piece start end_ (_board self);
      if negb shape then Ok (false, self) else
      let target := dict_get (_board self) end_ in
      if match target with
         | Some t => bool_decide (color t = _turn self)
         | None => false
         end
      then Ok (false, self) else
      clear ← (if is_sliding piece then _path_clear (_board self) start end_ else Ok true);
      if negb clear then Ok (false, self) else
      let game_state :=
        match target with
        | Some (Cuttlefish c) =>
            if decide (c = AMETHYST) then TANGERINE_WON else AMETHYST_WON
        | _ => _game_state self
        end in
      let board := <[end_ := Some piece]> (_board self) in
      let board := <[start := None]> board in
      let turn := if decide (_turn self = TANGERINE) then AMETHYST else TANGERINE in
      Ok (true, {| _board := board; _game_state := game_state; _turn := turn |})
  end.

(** ** Vocabulary of the specification *)

(** Code point of a character. *)
Definition code (c : ascii) : Z := Z.of_nat (nat_of_ascii c).

(** A well-formed coordinate: a column letter a-g followed by a row digit
    1-7, and nothing else. *)
Definition well_formed (s : string) : bool :=
  match s with
  | String c (String r EmptyString) =>
      bool_decide (97 <= code c <= 103) && bool_decide (49 <= code r <= 55)
  | _ => false
  end.

(** The zero-based column and the row that the module reads off a
    coordinate: only the first two characters are looked at, and any
    decimal digit is accepted as a row. *)
Definition coords (s : string) : option (Z * Z) :=
  match s with
  | String c (String r _) =>
      if bool_decide (97 <= code c <= 103) && bool_decide (48 <= code r <= 57)
      then Some (code c - 97, code r - 48)
      else None
  | _ => None
  end.

(** The dictionary key of the square in zero-based column [col] and row [row]. *)
Definition square (col row : Z) : string :=
  String (ascii_of_nat (Z.to_nat (col + 97))) (str row).

(** The squares strictly between two coordinates, walking from the start
    towards the end by the unit step in each axis. *)
Definition between (start end_ : string) : list string :=
  match coords start, coords end_ with
  | Some (cs, rs), Some (ce, re) =>
      let n := Z.max (Z.abs (ce - cs)) (Z.abs (re - rs)) in
      map (fun j : nat =>
             square (cs + Z.of_nat j * Z.sgn (ce - cs)) (rs + Z.of_nat j * Z.sgn (re - rs)))
          (seq 1 (Z.to_nat n - 1))
  | _, _ => []
  end.

(** A square is occupied when the dictionary holds a piece (not [None]) there. *)
Definition occupied (board : Board) (sq : string) : Prop :=
  exists piece, dict_get board sq = Some piece.

Definition other_side (side : Color) : Color :=
  match side with
  | TANGERINE => AMETHYST
  | AMETHYST => TANGERINE
  end.

Definition won_by (side : Color) : GameState :=
  match side with
  | TANGERINE => TANGERINE_WON
  | AMETHYST => AMETHYST_WON
  end.

(** A sequence of [make_move] calls, collecting the returned booleans. *)
Fixpoint play (g : AnimalGame) (moves : list (string * string)) : outcome (list bool * AnimalGame) :=
  match moves with
  | [] => Ok ([], g)
  | (start, end_) :: moves' =>
      r ← make_move g start end_;
      rs ← play r.2 moves';
      Ok (r.1 :: rs.1, rs.2)
  end.

(** States reachable from a new game by calls of [make_move] that return,
    with coordinates taken from [P]. *)
Inductive reachable (P : string -> Prop) : AnimalGame -> Prop :=
| reachable_new g :
    __init__ = Ok g -> reachable P g
| reachable_move g start end_ b g' :
    reachable P g -> P start -> P end_ ->
    make_move g start end_ = Ok (b, g') ->
    reachable P g'.

(** The Cuttlefish of [side] stands on [sq]. *)
Definition cuttlefish_at (g : AnimalGame) (side : Color) (sq : string) : Prop :=
  _board g !! sq = Some (Some (Cuttlefish side)).

Definition has_cuttlefish (g : AnimalGame) (side : Color) : Prop :=
  exists sq, cuttlefish_at g side sq.

Definition one_cuttlefish (g : AnimalGame) (side : Color) : Prop :=
  exists sq, cuttlefish_at g side sq /\ forall sq', cuttlefish_at g side sq' -> sq' = sq.

(** The fourteen home squares. *)
Definition home_squares : list string :=
  map (fun c => String c "1") COLUMNS ++ map (fun c => String c "7") COLUMNS.

(** The game after a move that was applied. *)
Definition moved (g : AnimalGame) (start end_ : string) (piece : Piece) : AnimalGame :=
  {| _board := <[start := None]> (<[end_ := Some piece]> (_board g));
     _game_state :=
       match dict_get (_board g) end_ with
       | Some (Cuttlefish c) => won_by (other_side c)
       | _ => _game_state g
       end;
     _turn := other_side (_turn g) |}.

(** The game that [__init__] builds (see [__init___new_game]). *)
Definition new_game : AnimalGame :=
  {| _board :=
       list_to_map
         [("a1", Some (Chinchilla TANGERINE)); ("b1", Some (Wombat TANGERINE));
          ("c1", Some (Emu TANGERINE)); ("d1", Some (Cuttlefish TANGERINE));
          ("e1", Some (Emu TANGERINE)); ("f1", Some (Wombat TANGERINE));
          ("g1", Some (Chinchilla TANGERINE));
          ("a7", Some (Chinchilla AMETHYST)); ("b7", Some (Wombat AMETHYST));
          ("c7", Some (Emu AMETHYST)); ("d7", Some (Cuttlefish AMETHYST));
          ("e7", Some (Emu AMETHYST)); ("f7", Some (Wombat AMETHYST));
          ("g7", Some (Chinchilla AMETHYST))];
     _game_state := UNFINISHED;
     _turn := TANGERINE |}.

(** The boolean a call returned, the game put aside. *)
Definition returned (o : outcome (bool * AnimalGame)) : outcome bool :=
  r ← o; Ok r.1.

(** A game with the board swapped for another one. *)
Definition with_board (g : AnimalGame) (board : Board) : AnimalGame :=
  {| _board := board; _game_state := _game_state g; _turn := _turn g |}.

(** The game after a sequence of calls on a new game. *)
Definition after (moves : list (string * string)) : AnimalGame :=
  match play new_game moves with
  | Ok r => r.2
  | _ => new_game
  end.

(** A TANGERINE Wombat walks to c6, next to the AMETHYST Cuttlefish. *)
Definition wombat_attack : list (string * string) :=
  [("b1", "b5"); ("a7", "a6"); ("b5", "c6"); ("a6", "a5")].

(** ... and captures it. *)
Definition finished_game : AnimalGame :=
  after (wombat_attack ++ [("c6", "d7")]).

(** A new game with a TANGERINE Chinchilla put on c2, in front of the Emu. *)
Definition blocked_game : AnimalGame :=
  with_board new_game (<["c2" := Some (Chinchilla TANGERINE)]> (_board new_game)).

(** A new game with pieces put on b2, b3 and b4, in front of the Wombat. *)
Definition crowded_game : AnimalGame :=
  with_board new_game
    (<["b4" := Some (Emu AMETHYST)]> (<["b3" := Some (Chinchilla TANGERINE)]>
       (<["b2" := Some (Chinchilla AMETHYST)]> (_board new_game)))).

(** ** The rest of the module: the board dump *)

(** [range(n)] *)
Definition range (n : nat) : list Z := map Z.of_nat (seq 0 n).

(** [range(start, stop, -1)] *)
Definition range_down (start stop : Z) : list Z :=
  map (fun i : nat => start - Z.of_nat i) (seq 0 (Z.to_nat (start - stop))).

(** A [for] loop whose body updates the loop state or raises. *)
Fixpoint for_each {A S : Type} (xs : list A) (body : S -> A -> outcome S) (s : S) : outcome S :=
  match xs with
  | [] => Ok s
  | x :: xs' => s' ← body s x; for_each xs' body s'
  end.

(** [print_board] returns the lines it prints, in order. *)
Definition print_board (self : AnimalGame) : outcome (list string) :=
  out ← for_each (range_down 7 0)
           (fun out row =>
              let line := str row +:+ " " in
              line ← for_each (range 7)
                        (fun line column =>
                           c ← list_getitem COLUMNS column;
                           let sq := String c "" +:+ str row in
                           let piece := dict_get (_board self) sq in
                           match piece with
                           | Some p => Ok (line +:+ (symbol p +:+ " "))
                           | None => Ok (line +:+ ". ")
                           end)
                        line;
              Ok (out ++ [line]))
           [];
  Ok (out ++ ["  a b c d e f g"]).

(** ** More vocabulary *)

(** What the dump shows for a square: the symbol of its piece, or a dot. *)
Definition cell (board : Board) (col row : Z) : string :=
  match dict_get board (square col row) with
  | Some p => symbol p
  | None => "."
  end.

(** The pieces on the board, by square: keys holding [None] are left out. *)
Definition pieces (g : AnimalGame) : gmap string Piece := omap id (_board g).

Definition piece_count (g : AnimalGame) : nat := size (pieces g).

(** The number of calls that returned [True]. *)
Definition successes (rs : list bool) : nat := length (filter (fun b => b = true) rs).

(** One row of the dump: the row number, then one cell per column. *)
Definition row_text (board : Board) (row : Z) : string :=
  foldl (fun line col => line +:+ (cell board col row +:+ " ")) (str row +:+ " ") (range 7).

(** * Properties *)

(** ** The Python primitives *)

Lemma bind_Ok {A B : Type} (m : outcome A) (f : A -> outcome B) (b : B) :
  (m ≫= f) = Ok b -> exists a, m = Ok a /\ f a = Ok b.
Proof. destruct m; simpl; intros H; try discriminate. eauto. Qed.

Lemma ascii_of_code (c : ascii) : c = ascii_of_nat (Z.to_nat (code c)).
Proof. unfold code. by rewrite Nat2Z.id, ascii_nat_embedding. Qed.

Lemma list_index_COLUMNS (c : ascii) :
  97 <= code c <= 103 -> list_index COLUMNS c = Ok (code c - 97).
Proof.
  intros H. pose proof (ascii_of_code c) as Hc.
  assert (code c = 97 \/ code c = 98 \/ code c = 99 \/ code c = 100 \/
          code c = 101 \/ code c = 102 \/ code c = 103) as Hcases by lia.
  destruct Hcases as [E|[E|[E|[E|[E|[E|E]]]]]]; rewrite E in Hc |- *; subst c; reflexivity.
Qed.

Lemma list_index_COLUMNS_inv (c : ascii) (i : Z) :
  list_index COLUMNS c = Ok i -> 97 <= code c <= 103 /\ i = code c - 97.
Proof.
  unfold COLUMNS. simpl. repeat case_decide; subst; simpl; intros Hi; inversion Hi; done.
Qed.

Lemma list_index_COLUMNS_not_in (c : ascii) :
  c ∉ COLUMNS -> list_index COLUMNS c = Raise ValueError.
Proof.
  unfold COLUMNS. intros H. simpl.
  repeat (case_decide; [subst; exfalso; apply H; set_solver|]). reflexivity.
Qed.

Lemma list_index_outcome (c : ascii) :
  (exists i, list_index COLUMNS c = Ok i) \/ list_index COLUMNS c = Raise ValueError.
Proof. unfold COLUMNS. simpl. repeat case_decide; simpl; eauto. Qed.

Lemma int_digit (c : ascii) :
  48 <= code c <= 57 -> int c = Ok (code c - 48).
Proof. intros H. unfold int. fold (code c). by rewrite decide_True. Qed.

Lemma int_inv (c : ascii) (n : Z) :
  int c = Ok n -> 48 <= code c <= 57 /\ n = code c - 48.
Proof. unfold int. fold (code c). case_decide; intros Hn; inversion Hn; done. Qed.

Lemma list_getitem_COLUMNS (column : Z) :
  0 <= column < 7 ->
  list_getitem COLUMNS column = Ok (ascii_of_nat (Z.to_nat (column + 97))).
Proof.
  intros H.
  assert (column = 0 \/ column = 1 \/ column = 2 \/ column = 3 \/
          column = 4 \/ column = 5 \/ column = 6) as Hcases by lia.
  destruct Hcases as [E|[E|[E|[E|[E|[E|E]]]]]]; subst column; reflexivity.
Qed.

Lemma list_getitem_COLUMNS_outcome (column : Z) :
  (exists c, list_getitem COLUMNS column = Ok c /\ -7 <= column < 7)
  \/ (list_getitem COLUMNS column = Raise IndexError /\ (column < -7 \/ 7 <= column)).
Proof.
  unfold list_getitem. change (Z.of_nat (length COLUMNS)) with 7.
  destruct (decide (column < 0)); case_decide.
  - left. destruct (COLUMNS !! Z.to_nat (column + 7)) eqn:E.
    + eexists; split; [done|lia].
    + apply lookup_ge_None in E. simpl in E. lia.
  - right. split; [done|lia].
  - left. destruct (COLUMNS !! Z.to_nat column) eqn:E.
    + eexists; split; [done|lia].
    + apply lookup_ge_None in E. simpl in E. lia.
  - right. split; [done|lia].
Qed.

(** ** The loop of [_path_clear] *)

(** More fuel does not change a result that was reached. *)
Lemma path_loop_fuel_mono (n m : nat) (board : Board) (sc sr ce re column row : Z) :
  (n <= m)%nat ->
  path_loop n board sc sr ce re column row <> OutOfFuel ->
  path_loop m board sc sr ce re column row = path_loop n board sc sr ce re column row.
Proof.
  revert m column row. induction n as [|n IH]; intros m column row Hle Hne.
  - simpl in Hne. congruence.
  - destruct m as [|m]; [lia|]. simpl in *.
    destruct (bool_decide (column ≠ ce) || bool_decide (row ≠ re)); [|done].
    destruct (list_getitem COLUMNS column); simpl in *; try done.
    destruct (dict_get board _); [done|].
    apply IH; [lia|done].
Qed.

(** The key that the loop builds is the key of the square it stands on. *)
Lemma position_square (column row : Z) :
  String (ascii_of_nat (Z.to_nat (column + 97))) "" +:+ str row = square column row.
Proof. reflexivity. Qed.

(** A walk of [k] unit steps that ends on the end square: the loop returns,
    and it returns [True] exactly when the [k] squares it visits are free. *)
Lemma path_loop_walk (k : nat) :
  forall (fuel : nat) (board : Board) (sc sr ce re column row : Z),
    (k < fuel)%nat ->
    ce = column + Z.of_nat k * sc ->
    re = row + Z.of_nat k * sr ->
    (sc <> 0 \/ sr <> 0) ->
    (forall j : nat, (j < k)%nat -> 0 <= column + Z.of_nat j * sc < 7) ->
    exists b : bool,
      path_loop fuel board sc sr ce re column row = Ok b /\
      (b = true <->
       forall j : nat, (j < k)%nat ->
         dict_get board (square (column + Z.of_nat j * sc) (row + Z.of_nat j * sr)) = None).
Proof.
  induction k as [|k IH]; intros fuel board sc sr ce re column row Hfuel Hce Hre Hstep Hrange.
  - destruct fuel as [|fuel]; [lia|]. simpl.
    rewrite !bool_decide_eq_false_2 by lia. simpl.
    exists true. split; [done|]. split; [intros _ j Hj; lia|done].
  - destruct fuel as [|fuel]; [lia|]. simpl.
    assert (bool_decide (column ≠ ce) || bool_decide (row ≠ re) = true) as ->.
    { apply orb_true_iff. destruct Hstep; [left|right]; apply bool_decide_eq_true; nia. }
    rewrite list_getitem_COLUMNS.
    2:{ specialize (Hrange 0%nat ltac:(lia)). lia. }
    simpl. rewrite position_square.
    destruct (dict_get board (square column row)) as [p|] eqn:Hget.
    + exists false. split; [done|]. split; [done|].
      intros Hfree. specialize (Hfree 0%nat ltac:(lia)).
      replace (column + Z.of_nat 0 * sc) with column in Hfree by lia.
      replace (row + Z.of_nat 0 * sr) with row in Hfree by lia.
      congruence.
    + destruct (IH fuel board sc sr ce re (column + sc) (row + sr)) as (b & Hb & Hiff);
        [lia|lia|lia|done| |].
      { intros j Hj. specialize (Hrange (S j) ltac:(lia)). lia. }
      exists b. split; [done|]. rewrite Hiff. split.
      * intros Hfree [|j] Hj.
        -- replace (column + Z.of_nat 0 * sc) with column by lia.
           replace (row + Z.of_nat 0 * sr) with row by lia. done.
        -- specialize (Hfree j ltac:(lia)).
           replace (column + Z.of_nat (S j) * sc) with (column + sc + Z.of_nat j * sc) by lia.
           replace (row + Z.of_nat (S j) * sr) with (row + sr + Z.of_nat j * sr) by lia.
           done.
      * intros Hfree j Hj. specialize (Hfree (S j) ltac:(lia)).
        replace (column + Z.of_nat (S j) * sc) with (column + sc + Z.of_nat j * sc) in Hfree by lia.
        replace (row + Z.of_nat (S j) * sr) with (row + sr + Z.of_nat j * sr) in Hfree by lia.
        done.
Qed.

(** When the column does not move, the row reaches the end row. *)
Lemma path_loop_rows_terminate (fuel : nat) :
  forall (board : Board) (sr ce re row : Z),
    row = re \/ (sr = 1 /\ row < re) \/ (sr = -1 /\ re < row) ->
    Z.abs (re - row) < Z.of_nat fuel ->
    path_loop fuel board 0 sr ce re ce row <> OutOfFuel.
Proof.
  induction fuel as [|fuel IH]; intros board sr ce re row Hdir Hfuel; [lia|].
  simpl. destruct (bool_decide (ce ≠ ce) || bool_decide (row ≠ re)) eqn:Htest; [|done].
  destruct (list_getitem_COLUMNS_outcome ce) as [(c & -> & Hc)|[-> Hc]]; simpl; [|done].
  destruct (dict_get board _); [done|].
  rewrite bool_decide_eq_false_2 in Htest by tauto. simpl in Htest.
  apply bool_decide_eq_true in Htest.
  replace (ce + 0) with ce by lia. apply IH; lia.
Qed.

(** When the column moves, it leaves the list after at most 14 steps. *)
Lemma path_loop_columns_terminate (fuel : nat) :
  forall (board : Board) (sc sr ce re column row : Z),
    (sc = 1 /\ 0 <= column /\ 8 - column <= Z.of_nat fuel) \/
    (sc = -1 /\ column < 7 /\ column + 9 <= Z.of_nat fuel) ->
    (1 <= fuel)%nat ->
    path_loop fuel board sc sr ce re column row <> OutOfFuel.
Proof.
  induction fuel as [|fuel IH]; intros board sc sr ce re column row Hdir Hfuel; [lia|].
  simpl. destruct (bool_decide (column ≠ ce) || bool_decide (row ≠ re)); [|done].
  destruct (list_getitem_COLUMNS_outcome column) as [(c & -> & Hc)|[-> Hc]]; simpl; [|done].
  destruct (dict_get board _); [done|].
  apply IH; lia.
Qed.

(** ** Reading coordinates *)

(** From here on [simpl] keeps [list_index COLUMNS c] folded. *)
Arguments list_index : simpl never.

Lemma coords_Some_inv (s : string) (c r : Z) :
  coords s = Some (c, r) ->
  exists c0 r0 rest,
    s = String c0 (String r0 rest) /\
    97 <= code c0 <= 103 /\ 48 <= code r0 <= 57 /\
    c = code c0 - 97 /\ r = code r0 - 48.
Proof.
  destruct s as [|c0 [|r0 rest]]; simpl; try discriminate.
  destruct (bool_decide (97 <= code c0 <= 103)) eqn:Hc; simpl; try discriminate.
  destruct (bool_decide (48 <= code r0 <= 57)) eqn:Hr; simpl; try discriminate.
  apply bool_decide_eq_true in Hc, Hr. intros [= <- <-].
  exists c0, r0, rest. done.
Qed.

Lemma coords_range (s : string) (c r : Z) :
  coords s = Some (c, r) -> 0 <= c <= 6 /\ 0 <= r <= 9.
Proof. intros H. apply coords_Some_inv in H as (c0 & r0 & rest & -> & ? & ? & -> & ->). lia. Qed.

Lemma well_formed_coords (s : string) :
  well_formed s = true ->
  exists c r, coords s = Some (c, r) /\ 0 <= c <= 6 /\ 1 <= r <= 7 /\ s = square c r.
Proof.
  destruct s as [|c0 [|r0 [|? ?]]]; simpl; try discriminate.
  intros H. apply andb_true_iff in H as [Hc Hr].
  apply bool_decide_eq_true in Hc, Hr.
  exists (code c0 - 97), (code r0 - 48).
  rewrite !bool_decide_eq_true_2 by lia. simpl.
  split; [done|]. split; [lia|]. split; [lia|].
  unfold square. replace (code c0 - 97 + 97) with (code c0) by lia.
  rewrite <- ascii_of_code. f_equal.
  pose proof (ascii_of_code r0) as Hr0.
  assert (code r0 = 49 \/ code r0 = 50 \/ code r0 = 51 \/ code r0 = 52 \/
          code r0 = 53 \/ code r0 = 54 \/ code r0 = 55) as Hcases by lia.
  destruct Hcases as [E|[E|[E|[E|[E|[E|E]]]]]]; rewrite E in Hr0 |- *; subst r0; reflexivity.
Qed.

(** The two differences read the column first from both coordinates, then
    the rows. *)
Lemma differences_coords (start end_ : string) (cs rs ce re : Z) :
  coords start = Some (cs, rs) ->
  coords end_ = Some (ce, re) ->
  column_difference start end_ = Ok (Z.abs (cs - ce)) /\
  row_difference start end_ = Ok (Z.abs (rs - re)).
Proof.
  intros Hs He.
  apply coords_Some_inv in Hs as (c0 & r0 & rest & -> & Hc0 & Hr0 & -> & ->).
  apply coords_Some_inv in He as (c1 & r1 & rest' & -> & Hc1 & Hr1 & -> & ->).
  unfold column_difference, row_difference, str_getitem. simpl.
  rewrite !list_index_COLUMNS, !int_digit by done. done.
Qed.

Lemma column_difference_Ok (start end_ : string) (dx : Z) :
  column_difference start end_ = Ok dx ->
  exists c0 rest0 c1 rest1,
    start = String c0 rest0 /\ end_ = String c1 rest1 /\
    97 <= code c0 <= 103 /\ 97 <= code c1 <= 103.
Proof.
  unfold column_difference, str_getitem. intros H.
  destruct start as [|c0 rest0]; simpl in H; [discriminate|].
  apply bind_Ok in H as (i0 & Hi0 & H). apply list_index_COLUMNS_inv in Hi0 as [? _].
  destruct end_ as [|c1 rest1]; simpl in H; [discriminate|].
  apply bind_Ok in H as (i1 & Hi1 & H). apply list_index_COLUMNS_inv in Hi1 as [? _].
  exists c0, rest0, c1, rest1. done.
Qed.

Lemma row_difference_Ok (start end_ : string) (dy : Z) :
  row_difference start end_ = Ok dy ->
  exists c0 r0 rest0 c1 r1 rest1,
    start = String c0 (String r0 rest0) /\ end_ = String c1 (String r1 rest1) /\
    48 <= code r0 <= 57 /\ 48 <= code r1 <= 57.
Proof.
  unfold row_difference, str_getitem. intros H.
  destruct start as [|c0 [|r0 rest0]]; simpl in H; try discriminate.
  apply bind_Ok in H as (i0 & Hi0 & H). apply int_inv in Hi0 as [? _].
  destruct end_ as [|c1 [|r1 rest1]]; simpl in H; try discriminate.
  apply bind_Ok in H as (i1 & Hi1 & H). apply int_inv in Hi1 as [? _].
  exists c0, r0, rest0, c1, r1, rest1. done.
Qed.

(** A shape predicate that returns has read both coordinates. *)
Lemma valid_move_Ok_coords (piece : Piece) (start end_ : string) (board : Board) (b : bool) :
  valid_move piece start end_ board = Ok b ->
  exists cs rs ce re, coords start = Some (cs, rs) /\ coords end_ = Some (ce, re).
Proof.
  intros H.
  assert (exists dx dy, column_difference start end_ = Ok dx /\
                        row_difference start end_ = Ok dy) as (dx & dy & Hdx & Hdy).
  { destruct piece; simpl in H;
      unfold Chinchilla_valid_move, Wombat_valid_move, Emu_valid_move,
        Cuttlefish_valid_move in H;
      apply bind_Ok in H as (dx & Hdx & H); apply bind_Ok in H as (dy & Hdy & H); eauto. }
  apply column_difference_Ok in Hdx as (c0 & rest0 & c1 & rest1 & -> & -> & Hc0 & Hc1).
  apply row_difference_Ok in Hdy as (c0' & r0 & rest0' & c1' & r1 & rest1' & E0 & E1 & Hr0 & Hr1).
  injection E0 as <- ->. injection E1 as <- ->.
  exists (code c0 - 97), (code r0 - 48), (code c1 - 97), (code r1 - 48).
  simpl. rewrite !bool_decide_eq_true_2 by done. done.
Qed.

(** A shape predicate does not look at the board. *)
Lemma valid_move_board (piece : Piece) (start end_ : string) (board board' : Board) :
  valid_move piece start end_ board = valid_move piece start end_ board'.
Proof. destruct piece; reflexivity. Qed.

(** A shape predicate never runs out of fuel: it has no loop. *)
Lemma valid_move_outcome (piece : Piece) (start end_ : string) (board : Board) :
  valid_move piece start end_ board <> OutOfFuel.
Proof.
  assert (forall c, list_index COLUMNS c <> OutOfFuel) as Hidx.
  { intros c. destruct (list_index_outcome c) as [[i ->]| ->]; done. }
  assert (forall c, int c <> OutOfFuel) as Hint.
  { intros c. unfold int. case_decide; done. }
  assert (forall s i, str_getitem s i <> OutOfFuel) as Hget.
  { intros s i. unfold str_getitem. destruct (String.get i s); done. }
  assert (column_difference start end_ <> OutOfFuel) as Hdx.
  { unfold column_difference.
    destruct (str_getitem start 0) as [c0| |] eqn:E0; simpl; try done; [|by apply Hget in E0].
    destruct (list_index COLUMNS c0) as [i0| |] eqn:Ei0; simpl; try done; [|by apply Hidx in Ei0].
    destruct (str_getitem end_ 0) as [c1| |] eqn:E1; simpl; try done; [|by apply Hget in E1].
    destruct (list_index COLUMNS c1) as [i1| |] eqn:Ei1; simpl; try done. by apply Hidx in Ei1. }
  assert (row_difference start end_ <> OutOfFuel) as Hdy.
  { unfold row_difference.
    destruct (str_getitem start 1) as [c0| |] eqn:E0; simpl; try done; [|by apply Hget in E0].
    destruct (int c0) as [i0| |] eqn:Ei0; simpl; try done; [|by apply Hint in Ei0].
    destruct (str_getitem end_ 1) as [c1| |] eqn:E1; simpl; try done; [|by apply Hget in E1].
    destruct (int c1) as [i1| |] eqn:Ei1; simpl; try done. by apply Hint in Ei1. }
  destruct piece; simpl;
    unfold Chinchilla_valid_move, Wombat_valid_move, Emu_valid_move, Cuttlefish_valid_move;
    (destruct (column_difference start end_); simpl; try done);
    (destruct (row_difference start end_); simpl; try done);
    repeat case_match; done.
Qed.

(** ** [_path_clear] *)

Lemma step_sgn (d : Z) :
  (if decide (d = 0) then 0 else if decide (d > 0) then 1 else -1) = Z.sgn d.
Proof. repeat case_decide; subst; [done|by rewrite Z.sgn_pos by lia|by rewrite Z.sgn_neg by lia]. Qed.

(** Once both coordinates are read, [_path_clear] is the loop started one
    unit step away from the start square. *)
Lemma _path_clear_fuel_coords (fuel : nat) (board : Board) (start end_ : string)
    (cs rs ce re : Z) :
  coords start = Some (cs, rs) ->
  coords end_ = Some (ce, re) ->
  _path_clear_fuel fuel board start end_ =
  path_loop fuel board (Z.sgn (ce - cs)) (Z.sgn (re - rs)) ce re
    (cs + Z.sgn (ce - cs)) (rs + Z.sgn (re - rs)).
Proof.
  intros Hs He.
  apply coords_Some_inv in Hs as (c0 & r0 & rest & -> & Hc0 & Hr0 & -> & ->).
  apply coords_Some_inv in He as (c1 & r1 & rest' & -> & Hc1 & Hr1 & -> & ->).
  unfold _path_clear_fuel, str_getitem. simpl.
  rewrite (list_index_COLUMNS c0) by done. simpl.
  rewrite (int_digit r0) by done. simpl.
  rewrite (list_index_COLUMNS c1) by done. simpl.
  rewrite (int_digit r1) by done. simpl.
  rewrite !step_sgn. done.
Qed.

(** Otherwise reading a coordinate raises, before the loop is entered. *)
Lemma _path_clear_fuel_cases (start end_ : string) :
  (exists cs rs ce re, coords start = Some (cs, rs) /\ coords end_ = Some (ce, re))
  \/ (exists e, forall fuel board, _path_clear_fuel fuel board start end_ = Raise e).
Proof.
  unfold _path_clear_fuel, str_getitem.
  destruct start as [|c0 rest0]; simpl; [right; by eexists|].
  destruct (list_index_outcome c0) as [[i0 Hi0]|Hi0]; rewrite Hi0; simpl;
    [|right; by eexists].
  apply list_index_COLUMNS_inv in Hi0 as [Hc0 ->].
  destruct rest0 as [|r0 rest0]; simpl; [right; by eexists|].
  destruct (int r0) as [n0| |] eqn:Hn0; simpl; [|right; by eexists|].
  2:{ unfold int in Hn0. by case_decide. }
  apply int_inv in Hn0 as [Hr0 ->].
  destruct end_ as [|c1 rest1]; simpl; [right; by eexists|].
  destruct (list_index_outcome c1) as [[i1 Hi1]|Hi1]; rewrite Hi1; simpl;
    [|right; by eexists].
  apply list_index_COLUMNS_inv in Hi1 as [Hc1 ->].
  destruct rest1 as [|r1 rest1]; simpl; [right; by eexists|].
  destruct (int r1) as [n1| |] eqn:Hn1; simpl; [|right; by eexists|].
  2:{ unfold int in Hn1. by case_decide. }
  apply int_inv in Hn1 as [Hr1 ->].
  left. rewrite !bool_decide_eq_true_2 by done. simpl. by do 4 eexists.
Qed.

(** The loop of [_path_clear] always ends: 14 units of fuel are enough for
    every board and every pair of strings. *)
Lemma _path_clear_fuel_terminates (fuel : nat) (board : Board) (start end_ : string) :
  (14 <= fuel)%nat ->
  _path_clear_fuel fuel board start end_ <> OutOfFuel.
Proof.
  intros Hfuel.
  destruct (_path_clear_fuel_cases start end_) as [(cs & rs & ce & re & Hs & He)|[e ->]];
    [|done].
  rewrite (_path_clear_fuel_coords _ _ _ _ _ _ _ _ Hs He).
  apply coords_range in Hs, He.
  destruct (Z.lt_trichotomy (ce - cs) 0) as [Hdx|[Hdx|Hdx]].
  - rewrite (Z.sgn_neg (ce - cs)) by done.
    apply path_loop_columns_terminate; lia.
  - rewrite Hdx. replace (cs + Z.sgn 0) with ce by (simpl; lia). simpl Z.sgn.
    apply path_loop_rows_terminate.
    + destruct (Z.lt_trichotomy (re - rs) 0) as [Hdy|[Hdy|Hdy]].
      * rewrite (Z.sgn_neg (re - rs)) by done. lia.
      * rewrite Hdy. simpl. lia.
      * rewrite (Z.sgn_pos (re - rs)) by done. lia.
    + pose proof (Z.sgn_spec (re - rs)). lia.
  - rewrite (Z.sgn_pos (ce - cs)) by done.
    apply path_loop_columns_terminate; lia.
Qed.

Lemma _path_clear_fuel_enough (fuel : nat) (board : Board) (start end_ : string) :
  (14 <= fuel)%nat ->
  _path_clear_fuel fuel board start end_ = _path_clear board start end_.
Proof.
  intros Hfuel. unfold _path_clear.
  pose proof (_path_clear_fuel_terminates 14 board start end_ ltac:(lia)) as H14.
  destruct (_path_clear_fuel_cases start end_) as [(cs & rs & ce & re & Hs & He)|[e He]].
  - rewrite !(_path_clear_fuel_coords _ _ _ _ _ _ _ _ Hs He) in *.
    rewrite (path_loop_fuel_mono 14 fuel) by done.
    rewrite (path_loop_fuel_mono 14 path_fuel); [done|unfold path_fuel; lia|done].
  - by rewrite !He.
Qed.

(** A boolean reached with some fuel is the result of [_path_clear]. *)
Lemma _path_clear_fuel_stable (n m : nat) (board : Board) (start end_ : string) (b : bool) :
  _path_clear_fuel n board start end_ = Ok b ->
  (n <= m)%nat ->
  _path_clear_fuel m board start end_ = Ok b /\ _path_clear board start end_ = Ok b.
Proof.
  intros Hn Hle.
  destruct (_path_clear_fuel_cases start end_) as [(cs & rs & ce & re & Hs & He)|[e He]].
  - assert (forall k, (n <= k)%nat -> _path_clear_fuel k board start end_ = Ok b) as Hk.
    { intros k Hk. rewrite !(_path_clear_fuel_coords _ _ _ _ _ _ _ _ Hs He) in *.
      rewrite (path_loop_fuel_mono n k); [done|done|by rewrite Hn]. }
    split; [by apply Hk|].
    rewrite <- (_path_clear_fuel_enough (n + 14)) by lia. apply Hk. lia.
  - rewrite He in Hn. discriminate.
Qed.

Lemma _path_clear_terminates (board : Board) (start end_ : string) :
  _path_clear board start end_ <> OutOfFuel.
Proof. apply _path_clear_fuel_terminates. unfold path_fuel. lia. Qed.

(** On a straight line (a rank, a file or a diagonal) the walk reaches the
    end square: [_path_clear] returns, and it returns [True] exactly when
    every square strictly between the two coordinates is free. *)
Lemma _path_clear_straight (fuel : nat) (board : Board) (start end_ : string)
    (cs rs ce re : Z) :
  coords start = Some (cs, rs) ->
  coords end_ = Some (ce, re) ->
  (ce - cs = 0 \/ re - rs = 0 \/ Z.abs (ce - cs) = Z.abs (re - rs)) ->
  (cs, rs) <> (ce, re) ->
  Z.max (Z.abs (ce - cs)) (Z.abs (re - rs)) <= Z.of_nat fuel ->
  exists b : bool,
    _path_clear_fuel fuel board start end_ = Ok b /\
    (b = true <-> forall sq, sq ∈ between start end_ -> dict_get board sq = None).
Proof.
  intros Hs He Hline Hne Hfuel.
  rewrite (_path_clear_fuel_coords _ _ _ _ _ _ _ _ Hs He).
  unfold between. rewrite Hs, He.
  pose proof (coords_range _ _ _ Hs) as [Hcs Hrs].
  pose proof (coords_range _ _ _ He) as [Hce Hre].
  set (dx := ce - cs) in *. set (dy := re - rs) in *.
  set (n := Z.max (Z.abs dx) (Z.abs dy)) in *.
  assert (1 <= n) as Hn.
  { destruct (decide (dx = 0)), (decide (dy = 0)); try lia.
    exfalso. apply Hne. f_equal; lia. }
  assert (n * Z.sgn dx = dx /\ n * Z.sgn dy = dy) as [Hdx Hdy].
  { pose proof (Z.sgn_spec dx). pose proof (Z.sgn_spec dy). split; nia. }
  assert (Z.sgn dx <> 0 \/ Z.sgn dy <> 0) as Hstep.
  { pose proof (Z.sgn_spec dx). pose proof (Z.sgn_spec dy). lia. }
  destruct (path_loop_walk (Z.to_nat n - 1) fuel board (Z.sgn dx) (Z.sgn dy) ce re
              (cs + Z.sgn dx) (rs + Z.sgn dy)) as (b & Hb & Hiff); [lia|nia|nia|done| |].
  { intros j Hj. pose proof (Z.sgn_spec dx). nia. }
  exists b. split; [done|]. rewrite Hiff. split.
  - intros Hfree sq Hsq. apply list_elem_of_fmap in Hsq as (j & -> & Hj).
    apply elem_of_seq in Hj. specialize (Hfree (j - 1)%nat ltac:(lia)).
    replace (cs + Z.sgn dx + Z.of_nat (j - 1) * Z.sgn dx)
      with (cs + Z.of_nat j * Z.sgn dx) in Hfree by lia.
    replace (rs + Z.sgn dy + Z.of_nat (j - 1) * Z.sgn dy)
      with (rs + Z.of_nat j * Z.sgn dy) in Hfree by lia.
    done.
  - intros Hfree j Hj.
    replace (cs + Z.sgn dx + Z.of_nat j * Z.sgn dx)
      with (cs + Z.of_nat (S j) * Z.sgn dx) by lia.
    replace (rs + Z.sgn dy + Z.of_nat j * Z.sgn dy)
      with (rs + Z.of_nat (S j) * Z.sgn dy) by lia.
    apply Hfree. apply list_elem_of_fmap. exists (S j). split; [done|].
    apply elem_of_seq. lia.
Qed.

(** ** [make_move] *)

(** Everything a successful call went through. *)
Lemma make_move_true (g : AnimalGame) (start end_ : string) (g' : AnimalGame) :
  make_move g start end_ = Ok (true, g') ->
  exists piece,
    _game_state g = UNFINISHED /\
    _board g !! start = Some (Some piece) /\
    color piece = _turn g /\
    valid_move piece start end_ (_board g) = Ok true /\
    (forall t, dict_get (_board g) end_ = Some t -> color t <> _turn g) /\
    (is_sliding piece = true -> _path_clear (_board g) start end_ = Ok true) /\
    g' = moved g start end_ piece.
Proof.
  unfold make_move. intros H.
  destruct (decide (_game_state g ≠ UNFINISHED)) as [|Hst]; [by inversion H|].
  apply dec_stable in Hst.
  destruct (_board g !! start) as [[piece|]|] eqn:Hstart; try by inversion H.
  destruct (decide (color piece ≠ _turn g)) as [|Hcol]; [by inversion H|].
  apply dec_stable in Hcol.
  destruct (valid_move piece start end_ (_board g)) as [[|]| |] eqn:Hshape;
    simpl in H; try by inversion H.
  destruct (dict_get (_board g) end_) as [t|] eqn:Htarget.
  - destruct (bool_decide (color t = _turn g)) eqn:Hfriend; [by inversion H|].
    apply bool_decide_eq_false in Hfriend.
    destruct (is_sliding piece) eqn:Hslide.
    + destruct (_path_clear (_board g) start end_) as [[|]| |] eqn:Hclear;
        simpl in H; try by inversion H.
      exists piece. repeat (split; [by (done || congruence)|]).
      inversion H. unfold moved. rewrite Htarget.
      f_equal; [by destruct t as [| | |[]]|by destruct (_turn g)].
    + simpl in H. exists piece. repeat (split; [by (done || congruence)|]).
      inversion H. unfold moved. rewrite Htarget.
      f_equal; [by destruct t as [| | |[]]|by destruct (_turn g)].
  - destruct (is_sliding piece) eqn:Hslide.
    + destruct (_path_clear (_board g) start end_) as [[|]| |] eqn:Hclear;
        simpl in H; try by inversion H.
      exists piece. repeat (split; [by (done || congruence)|]).
      inversion H. unfold moved. rewrite Htarget.
      f_equal. by destruct (_turn g).
    + simpl in H. exists piece. repeat (split; [by (done || congruence)|]).
      inversion H. unfold moved. rewrite Htarget.
      f_equal. by destruct (_turn g).
Qed.

(** A call that returns [False] returns the game it was given. *)
Lemma make_move_false (g : AnimalGame) (start end_ : string) (g' : AnimalGame) :
  make_move g start end_ = Ok (false, g') -> g' = g.
Proof.
  unfold make_move. intros H.
  destruct (decide (_game_state g ≠ UNFINISHED)); [by inversion H|].
  destruct (_board g !! start) as [[piece|]|]; try by inversion H.
  destruct (decide (color piece ≠ _turn g)); [by inversion H|].
  destruct (valid_move piece start end_ (_board g)) as [[|]| |];
    simpl in H; try by inversion H.
  destruct (match dict_get (_board g) end_ with
            | Some t => bool_decide (color t = _turn g)
            | None => false
            end); [by inversion H|].
  destruct (is_sliding piece); simpl in H; [|by inversion H].
  destruct (_path_clear (_board g) start end_) as [[|]| |]; simpl in H; by inversion H.
Qed.

(** [make_move] never runs out of fuel: its only loop always ends. *)
Lemma make_move_terminates (g : AnimalGame) (start end_ : string) :
  make_move g start end_ <> OutOfFuel.
Proof.
  unfold make_move.
  destruct (decide (_game_state g ≠ UNFINISHED)); [done|].
  destruct (_board g !! start) as [[piece|]|]; try done.
  destruct (decide (color piece ≠ _turn g)); [done|].
  pose proof (valid_move_outcome piece start end_ (_board g)) as Hshape.
  destruct (valid_move piece start end_ (_board g)) as [[|]| |]; simpl; try done.
  destruct (match dict_get (_board g) end_ with
            | Some t => bool_decide (color t = _turn g)
            | None => false
            end); [done|].
  destruct (is_sliding piece); simpl; [|done].
  pose proof (_path_clear_terminates (_board g) start end_) as Hclear.
  destruct (_path_clear (_board g) start end_) as [[|]| |]; simpl; done.
Qed.

(** ** A new game *)

Lemma _place_initial_pieces_board :
  _place_initial_pieces ∅ =
  Ok (<["g7" := Some (Chinchilla AMETHYST)]> (<["g1" := Some (Chinchilla TANGERINE)]>
     (<["f7" := Some (Wombat AMETHYST)]> (<["f1" := Some (Wombat TANGERINE)]>
     (<["e7" := Some (Emu AMETHYST)]> (<["e1" := Some (Emu TANGERINE)]>
     (<["d7" := Some (Cuttlefish AMETHYST)]> (<["d1" := Some (Cuttlefish TANGERINE)]>
     (<["c7" := Some (Emu AMETHYST)]> (<["c1" := Some (Emu TANGERINE)]>
     (<["b7" := Some (Wombat AMETHYST)]> (<["b1" := Some (Wombat TANGERINE)]>
     (<["a7" := Some (Chinchilla AMETHYST)]> (<["a1" := Some (Chinchilla TANGERINE)]>
      ∅)))))))))))))).
Proof. reflexivity. Qed.

(** C5.  A newly constructed game is UNFINISHED with TANGERINE to move;
    rows 1 and 7 hold, from column a to column g, Chinchilla, Wombat, Emu,
    Cuttlefish, Emu, Wombat, Chinchilla of TANGERINE and of AMETHYST; no
    other key is in the board. *)
Theorem C5_new_game :
  exists g,
    __init__ = Ok g /\
    get_game_state g = UNFINISHED /\
    _turn g = TANGERINE /\
    map (fun c => _board g !! String c "1") COLUMNS =
      map (fun p => Some (Some p))
        [Chinchilla TANGERINE; Wombat TANGERINE; Emu TANGERINE; Cuttlefish TANGERINE;
         Emu TANGERINE; Wombat TANGERINE; Chinchilla TANGERINE] /\
    map (fun c => _board g !! String c "7") COLUMNS =
      map (fun p => Some (Some p))
        [Chinchilla AMETHYST; Wombat AMETHYST; Emu AMETHYST; Cuttlefish AMETHYST;
         Emu AMETHYST; Wombat AMETHYST; Chinchilla AMETHYST] /\
    forall sq, sq ∉ home_squares -> _board g !! sq = None.
Proof.
  unfold __init__. rewrite _place_initial_pieces_board. simpl.
  eexists. split; [reflexivity|]. simpl.
  split; [done|]. split; [done|].
  split; [by vm_compute|]. split; [by vm_compute|].
  intros sq Hsq. unfold home_squares in Hsq. simpl in Hsq.
  repeat (rewrite lookup_insert_ne; [|intros <-; apply Hsq; set_solver]).
  apply lookup_empty.
Qed.

Lemma __init___new_game : __init__ = Ok new_game.
Proof. vm_compute. reflexivity. Qed.

(** ** Rows outside 1-7 *)

(** C9.  [make_move] does not check the row of the destination: on a new
    game, [make_move('a1', 'a0')] returns [True], puts the TANGERINE
    Chinchilla under the key ['a0'] (row 0 is not a row of the board), leaves
    [None] on a1 and hands the turn to AMETHYST. *)
Theorem C9_row_zero_accepted :
  exists g g',
    __init__ = Ok g /\
    well_formed "a0" = false /\
    make_move g "a1" "a0" = Ok (true, g') /\
    _board g' !! "a0" = Some (Some (Chinchilla TANGERINE)) /\
    _board g' !! "a1" = Some None /\
    _turn g' = AMETHYST.
Proof.
  exists new_game, (moved new_game "a1" "a0" (Chinchilla TANGERINE)).
  split; [apply __init___new_game|].
  split; [reflexivity|].
  split; [vm_compute; reflexivity|].
  split; [vm_compute; reflexivity|].
  split; [vm_compute; reflexivity|reflexivity].
Qed.

(** ** The shape predicates *)

Lemma Emu_valid_move_coords (start end_ : string) (board : Board) (cs rs ce re : Z) :
  coords start = Some (cs, rs) ->
  coords end_ = Some (ce, re) ->
  Emu_valid_move start end_ board =
  Ok (bool_decide ((Z.abs (cs - ce) = 0 /\ 1 <= Z.abs (rs - re) <= 3) \/
                   (Z.abs (rs - re) = 0 /\ 1 <= Z.abs (cs - ce) <= 3) \/
                   (Z.abs (cs - ce) = 1 /\ Z.abs (rs - re) = 1))).
Proof.
  intros Hs He. destruct (differences_coords _ _ _ _ _ _ Hs He) as [Hdx Hdy].
  unfold Emu_valid_move. rewrite Hdx, Hdy. simpl.
  repeat case_bool_decide; simpl; try done; lia.
Qed.

Lemma Chinchilla_valid_move_coords (start end_ : string) (board : Board) (cs rs ce re : Z) :
  coords start = Some (cs, rs) ->
  coords end_ = Some (ce, re) ->
  Chinchilla_valid_move start end_ board =
  Ok (bool_decide (Z.max (Z.abs (cs - ce)) (Z.abs (rs - re)) = 1)).
Proof.
  intros Hs He. destruct (differences_coords _ _ _ _ _ _ Hs He) as [Hdx Hdy].
  unfold Chinchilla_valid_move. by rewrite Hdx, Hdy.
Qed.

(** C7.  The Emu's [valid_move] returns [True] if and only if the absolute
    column and row differences dCol, dRow of the two coordinates satisfy
    (dCol = 0 and 1 <= dRow <= 3) or (dRow = 0 and 1 <= dCol <= 3) or
    (dCol = 1 and dRow = 1); the board argument plays no part. *)
Theorem C7_Emu_valid_move (start end_ : string) (board : Board) :
  (Emu_valid_move start end_ board = Ok true <->
   exists cs rs ce re,
     coords start = Some (cs, rs) /\ coords end_ = Some (ce, re) /\
     let dCol := Z.abs (cs - ce) in
     let dRow := Z.abs (rs - re) in
     (dCol = 0 /\ 1 <= dRow <= 3) \/ (dRow = 0 /\ 1 <= dCol <= 3) \/ (dCol = 1 /\ dRow = 1))
  /\ (forall board' : Board,
        Emu_valid_move start end_ board' = Emu_valid_move start end_ board).
Proof.
  split; [|done]. split.
  - intros H.
    destruct (valid_move_Ok_coords (Emu TANGERINE) start end_ board true H)
      as (cs & rs & ce & re & Hs & He).
    exists cs, rs, ce, re. split; [done|]. split; [done|].
    rewrite (Emu_valid_move_coords _ _ _ _ _ _ _ Hs He) in H.
    injection H as H. by apply bool_decide_eq_true in H.
  - intros (cs & rs & ce & re & Hs & He & H).
    rewrite (Emu_valid_move_coords _ _ _ _ _ _ _ Hs He).
    f_equal. by apply bool_decide_eq_true.
Qed.

(** The moves a sliding piece may make run along a rank, a file or a
    diagonal, and are at most three squares long (one for a diagonal). *)
Lemma sliding_shape (piece : Piece) (start end_ : string) (board : Board) :
  is_sliding piece = true ->
  valid_move piece start end_ board = Ok true ->
  exists cs rs ce re,
    coords start = Some (cs, rs) /\ coords end_ = Some (ce, re) /\
    ((ce - cs = 0 /\ 1 <= Z.abs (re - rs) <= 3) \/
     (re - rs = 0 /\ 1 <= Z.abs (ce - cs) <= 3) \/
     (Z.abs (ce - cs) = 1 /\ Z.abs (re - rs) = 1)).
Proof.
  intros Hslide H.
  destruct (valid_move_Ok_coords _ _ _ _ _ H) as (cs & rs & ce & re & Hs & He).
  exists cs, rs, ce, re. split; [done|]. split; [done|].
  destruct piece; try discriminate; simpl in H.
  - rewrite (Chinchilla_valid_move_coords _ _ _ _ _ _ _ Hs He) in H.
    injection H as H. apply bool_decide_eq_true in H. lia.
  - rewrite (Emu_valid_move_coords _ _ _ _ _ _ _ Hs He) in H.
    injection H as H. apply bool_decide_eq_true in H. lia.
Qed.

(** For such a move [_path_clear] returns a boolean, after at most two
    rounds of the loop, and the boolean tells whether the squares in
    between are all free. *)
Lemma _path_clear_sliding (piece : Piece) (start end_ : string) (board board' : Board)
    (fuel : nat) :
  is_sliding piece = true ->
  valid_move piece start end_ board = Ok true ->
  (3 <= fuel)%nat ->
  exists b : bool,
    _path_clear_fuel fuel board' start end_ = Ok b /\
    (b = true <-> forall sq, sq ∈ between start end_ -> dict_get board' sq = None).
Proof.
  intros Hslide H Hfuel.
  destruct (sliding_shape _ _ _ _ Hslide H) as (cs & rs & ce & re & Hs & He & Hshape).
  apply (_path_clear_straight fuel board' start end_ cs rs ce re Hs He); [lia| |lia].
  intros [= -> ->]. lia.
Qed.

(** C8.  The loop of [_path_clear] terminates whenever [make_move] reaches
    it: the piece is then a Chinchilla or an Emu whose shape predicate has
    accepted the move, so the move is straight and at most three squares
    long, and with fuel for three loop tests or more [_path_clear] returns a
    boolean, the same for every such fuel.  For a delta such as dCol = 2,
    dRow = 1 (a1 to c2) the walk never reaches the end square, it runs off
    the column list instead; both sliding predicates reject that delta. *)
Theorem C8_path_clear_terminates (piece : Piece) (board : Board) (start end_ : string) :
  is_sliding piece = true ->
  valid_move piece start end_ board = Ok true ->
  (exists cs rs ce re,
     coords start = Some (cs, rs) /\ coords end_ = Some (ce, re) /\
     ((ce - cs = 0 /\ 1 <= Z.abs (re - rs) <= 3) \/
      (re - rs = 0 /\ 1 <= Z.abs (ce - cs) <= 3) \/
      (Z.abs (ce - cs) = 1 /\ Z.abs (re - rs) = 1))) /\
  (exists b : bool,
     _path_clear board start end_ = Ok b /\
     forall fuel, (3 <= fuel)%nat -> _path_clear_fuel fuel board start end_ = Ok b) /\
  (forall fuel, (14 <= fuel)%nat -> _path_clear_fuel fuel ∅ "a1" "c2" = Raise IndexError) /\
  (forall side, valid_move (Chinchilla side) "a1" "c2" board = Ok false /\
                valid_move (Emu side) "a1" "c2" board = Ok false).
Proof.
  intros Hslide H. split; [by eapply sliding_shape|]. split; [|split].
  - destruct (_path_clear_sliding piece start end_ board board 3 Hslide H ltac:(lia))
      as (b & Hb & _).
    exists b. split.
    + by apply (_path_clear_fuel_stable 3 3 board start end_ b Hb).
    + intros fuel Hfuel. by apply (_path_clear_fuel_stable 3 fuel board start end_ b Hb).
  - intros fuel Hfuel. rewrite (_path_clear_fuel_enough fuel) by done.
    vm_compute. reflexivity.
  - intros side. split; reflexivity.
Qed.

Lemma C8_path_clear_terminates_witness :
  exists b : bool,
    _path_clear (_board new_game) "c1" "c4" = Ok b /\
    forall fuel, (3 <= fuel)%nat -> _path_clear_fuel fuel (_board new_game) "c1" "c4" = Ok b.
Proof.
  exact (proj1 (proj2 (C8_path_clear_terminates (Emu TANGERINE) (_board new_game) "c1" "c4"
                         eq_refl eq_refl))).
Defined.

(** ** Rejection is atomic *)

Lemma valid_move_coords_Ok (piece : Piece) (start end_ : string) (board : Board)
    (cs rs ce re : Z) :
  coords start = Some (cs, rs) ->
  coords end_ = Some (ce, re) ->
  exists b : bool, valid_move piece start end_ board = Ok b.
Proof.
  intros Hs He. destruct (differences_coords _ _ _ _ _ _ Hs He) as [Hdx Hdy].
  destruct piece; simpl.
  - rewrite (Chinchilla_valid_move_coords _ _ _ _ _ _ _ Hs He). eauto.
  - unfold Wombat_valid_move. rewrite Hdx, Hdy. simpl. eauto.
  - rewrite (Emu_valid_move_coords _ _ _ _ _ _ _ Hs He). eauto.
  - unfold Cuttlefish_valid_move. rewrite Hdx, Hdy. simpl. eauto.
Qed.

(** With coordinates that can be read, [make_move] returns a boolean. *)
Lemma make_move_returns (g : AnimalGame) (start end_ : string) (cs rs ce re : Z) :
  coords start = Some (cs, rs) ->
  coords end_ = Some (ce, re) ->
  exists (b : bool) (g' : AnimalGame), make_move g start end_ = Ok (b, g').
Proof.
  intros Hs He. unfold make_move.
  destruct (decide (_game_state g ≠ UNFINISHED)); [by eauto|].
  destruct (_board g !! start) as [[piece|]|]; try by eauto.
  destruct (decide (color piece ≠ _turn g)); [by eauto|].
  destruct (valid_move_coords_Ok piece start end_ (_board g) _ _ _ _ Hs He) as [shape Hshape].
  rewrite Hshape. simpl. destruct shape; simpl; [|by eauto].
  destruct (match dict_get (_board g) end_ with
            | Some t => bool_decide (color t = _turn g)
            | None => false
            end); [by eauto|].
  destruct (is_sliding piece) eqn:Hslide; simpl; [|by eauto].
  destruct (_path_clear_sliding piece start end_ (_board g) (_board g) path_fuel Hslide Hshape)
    as (b & Hb & _); [unfold path_fuel; lia|].
  unfold _path_clear. rewrite Hb. simpl. destruct b; simpl; by eauto.
Qed.

(** C2.  For every game and every pair of well-formed coordinates,
    [make_move] returns a boolean (it raises nothing); when the boolean is
    [False] the game (board, turn and status) is the one before the call. *)
Theorem C2_rejection_atomic (g : AnimalGame) (start end_ : string) :
  well_formed start = true ->
  well_formed end_ = true ->
  exists (b : bool) (g' : AnimalGame),
    make_move g start end_ = Ok (b, g') /\
    (b = false ->
     g' = g /\ _board g' = _board g /\ _turn g' = _turn g /\
     get_game_state g' = get_game_state g).
Proof.
  intros Hs He.
  apply well_formed_coords in Hs as (cs & rs & Hs & _).
  apply well_formed_coords in He as (ce & re & He & _).
  destruct (make_move_returns g start end_ _ _ _ _ Hs He) as (b & g' & H).
  exists b, g'. split; [done|]. intros ->.
  apply make_move_false in H. by subst g'.
Qed.

Lemma C2_rejection_atomic_witness :
  exists (b : bool) (g' : AnimalGame),
    make_move new_game "c7" "c6" = Ok (b, g') /\
    (b = false ->
     g' = new_game /\ _board g' = _board new_game /\ _turn g' = _turn new_game /\
     get_game_state g' = get_game_state new_game).
Proof. exact (C2_rejection_atomic new_game "c7" "c6" eq_refl eq_refl). Defined.

(** ** Applied moves *)

(** No shape predicate accepts a move that stays in place. *)
Lemma valid_move_true_neq (piece : Piece) (start end_ : string) (board : Board) :
  valid_move piece start end_ board = Ok true -> start <> end_.
Proof.
  intros H <-.
  destruct (valid_move_Ok_coords _ _ _ _ _ H) as (cs & rs & _ & _ & Hs & _).
  destruct (differences_coords _ _ _ _ _ _ Hs Hs) as [Hdx Hdy].
  rewrite Z.sub_diag in Hdx, Hdy.
  destruct piece; simpl in H;
    unfold Chinchilla_valid_move, Wombat_valid_move, Emu_valid_move,
      Cuttlefish_valid_move in H;
    rewrite Hdx, Hdy in H; vm_compute in H; discriminate.
Qed.

Lemma other_side_neq (side : Color) : other_side side <> side.
Proof. by destruct side. Qed.

Lemma neq_other_side (a b : Color) : a <> b -> a = other_side b.
Proof. destruct a, b; done. Qed.

(** C4.  After a call that returns [True] on a destination that held no
    piece, the destination holds the piece that stood on the start square,
    the start square holds [None], every other key and the status are as
    before, and the turn has passed to the other side; a call that returns
    [False] leaves the turn where it was. *)
Theorem C4_move_applied (g : AnimalGame) (start end_ : string) (b : bool) (g' : AnimalGame) :
  make_move g start end_ = Ok (b, g') ->
  (b = true -> dict_get (_board g) end_ = None ->
   exists piece,
     _board g !! start = Some (Some piece) /\
     _board g' !! end_ = Some (Some piece) /\
     _board g' !! start = Some None /\
     (forall sq, sq <> start -> sq <> end_ -> _board g' !! sq = _board g !! sq) /\
     get_game_state g' = get_game_state g /\
     _turn g' = other_side (_turn g) /\ _turn g' <> _turn g) /\
  (b = false -> _turn g' = _turn g).
Proof.
  intros H. split.
  - intros -> Hfree. apply make_move_true in H
      as (piece & Hst & Hstart & Hcol & Hshape & Hfoe & Hclear & ->).
    pose proof (valid_move_true_neq _ _ _ _ Hshape) as Hne.
    exists piece. unfold moved, get_game_state. simpl. rewrite Hfree.
    split; [done|]. split; [by rewrite lookup_insert_ne, lookup_insert_eq|].
    split; [by rewrite lookup_insert_eq|].
    split; [intros sq H1 H2; by rewrite !lookup_insert_ne|].
    split; [done|]. split; [done|apply other_side_neq].
  - intros ->. apply make_move_false in H. by subst g'.
Qed.

Lemma C4_move_applied_witness :
  exists piece,
    _board new_game !! "c1" = Some (Some piece) /\
    _board (moved new_game "c1" "c2" (Emu TANGERINE)) !! "c2" = Some (Some piece) /\
    _board (moved new_game "c1" "c2" (Emu TANGERINE)) !! "c1" = Some None /\
    (forall sq, sq <> "c1" -> sq <> "c2" ->
       _board (moved new_game "c1" "c2" (Emu TANGERINE)) !! sq = _board new_game !! sq) /\
    get_game_state (moved new_game "c1" "c2" (Emu TANGERINE)) = get_game_state new_game /\
    _turn (moved new_game "c1" "c2" (Emu TANGERINE)) = other_side (_turn new_game) /\
    _turn (moved new_game "c1" "c2" (Emu TANGERINE)) <> _turn new_game.
Proof.
  apply (proj1 (C4_move_applied new_game "c1" "c2" true
                  (moved new_game "c1" "c2" (Emu TANGERINE))
                  ltac:(vm_compute; reflexivity))).
  - reflexivity.
  - vm_compute. reflexivity.
Defined.

(** ** The end of the game *)

Lemma make_move_finished (g : AnimalGame) (start end_ : string) :
  _game_state g <> UNFINISHED -> make_move g start end_ = Ok (false, g).
Proof. intros H. unfold make_move. by rewrite decide_True. Qed.

Lemma play_finished (g : AnimalGame) (moves : list (string * string)) :
  _game_state g <> UNFINISHED ->
  play g moves = Ok (map (fun _ => false) moves, g).
Proof.
  intros H. induction moves as [|[start end_] moves IH]; [done|].
  simpl. rewrite make_move_finished by done. simpl. by rewrite IH.
Qed.

(** C1.  When a call of [make_move] returns [True] and the destination held
    a Cuttlefish, that Cuttlefish was the opponent's and the status becomes
    "won by the side that moved"; from then on every sequence of calls
    returns [False] throughout and ends in the very same game, so the
    status never changes again. *)
Theorem C1_capture_ends_game (g : AnimalGame) (start end_ : string) (g' : AnimalGame)
    (side : Color) :
  make_move g start end_ = Ok (true, g') ->
  dict_get (_board g) end_ = Some (Cuttlefish side) ->
  side = other_side (_turn g) /\
  get_game_state g' = won_by (_turn g) /\
  forall moves : list (string * string),
    play g' moves = Ok (map (fun _ => false) moves, g') /\
    forall n, exists g'',
      play g' (take n moves) = Ok (map (fun _ => false) (take n moves), g'') /\
      get_game_state g'' = won_by (_turn g).
Proof.
  intros H Htarget.
  apply make_move_true in H as (piece & Hst & Hstart & Hcol & Hshape & Hfoe & Hclear & ->).
  specialize (Hfoe _ Htarget). simpl in Hfoe.
  pose proof (neq_other_side _ _ Hfoe) as Hside.
  assert (get_game_state (moved g start end_ piece) = won_by (_turn g)) as Hwon.
  { unfold get_game_state, moved. simpl. rewrite Htarget, Hside. by destruct (_turn g). }
  assert (_game_state (moved g start end_ piece) <> UNFINISHED) as Hover.
  { unfold get_game_state in Hwon. rewrite Hwon. by destruct (_turn g). }
  split; [done|]. split; [done|]. intros moves. split.
  - by apply play_finished.
  - intros n. exists (moved g start end_ piece). split; [by apply play_finished|done].
Qed.

Lemma C1_capture_ends_game_witness :
  AMETHYST = other_side (_turn (after wombat_attack)) /\
  get_game_state finished_game = won_by (_turn (after wombat_attack)) /\
  forall moves : list (string * string),
    play finished_game moves = Ok (map (fun _ => false) moves, finished_game) /\
    forall n, exists g'',
      play finished_game (take n moves) = Ok (map (fun _ => false) (take n moves), g'') /\
      get_game_state g'' = won_by (_turn (after wombat_attack)).
Proof.
  apply (C1_capture_ends_game (after wombat_attack) "c6" "d7" finished_game AMETHYST).
  - vm_compute. reflexivity.
  - vm_compute. reflexivity.
Defined.

(** ** Sliding and jumping *)

Lemma between_coords (start end_ sq : string) :
  sq ∈ between start end_ ->
  exists cs rs ce re, coords start = Some (cs, rs) /\ coords end_ = Some (ce, re).
Proof.
  unfold between.
  destruct (coords start) as [[cs rs]|]; [|by intros ?%elem_of_nil].
  destruct (coords end_) as [[ce re]|]; [|by intros ?%elem_of_nil].
  intros _. by exists cs, rs, ce, re.
Qed.

(** A sliding piece with an occupied square in between does not move. *)
Lemma make_move_blocked (g : AnimalGame) (start end_ : string) (piece : Piece) (sq : string) :
  _board g !! start = Some (Some piece) ->
  is_sliding piece = true ->
  sq ∈ between start end_ ->
  occupied (_board g) sq ->
  make_move g start end_ = Ok (false, g).
Proof.
  intros Hstart Hslide Hsq [p Hp].
  destruct (between_coords _ _ _ Hsq) as (cs & rs & ce & re & Hs & He).
  unfold make_move. rewrite Hstart.
  destruct (decide (_game_state g ≠ UNFINISHED)); [done|].
  destruct (decide (color piece ≠ _turn g)); [done|].
  destruct (valid_move_coords_Ok piece start end_ (_board g) _ _ _ _ Hs He) as [shape Hshape].
  rewrite Hshape. simpl. destruct shape; simpl; [|done].
  destruct (match dict_get (_board g) end_ with
            | Some t => bool_decide (color t = _turn g)
            | None => false
            end); [done|].
  rewrite Hslide.
  destruct (_path_clear_sliding piece start end_ (_board g) (_board g) path_fuel Hslide Hshape)
    as (b & Hb & Hiff); [unfold path_fuel; lia|].
  unfold _path_clear. rewrite Hb. simpl. destruct b; simpl; [|done].
  rewrite (proj1 Hiff eq_refl sq Hsq) in Hp. discriminate.
Qed.

(** A jumping piece looks at the start and the end square only. *)
Lemma make_move_jump (g : AnimalGame) (start end_ : string) (piece : Piece) (board' : Board) :
  _board g !! start = Some (Some piece) ->
  is_sliding piece = false ->
  board' !! start = _board g !! start ->
  board' !! end_ = _board g !! end_ ->
  returned (make_move (with_board g board') start end_) = returned (make_move g start end_).
Proof.
  intros Hstart Hslide Hs He. unfold make_move, with_board, returned. simpl.
  rewrite Hs, Hstart. unfold dict_get. rewrite He, Hslide.
  rewrite (valid_move_board piece start end_ board' (_board g)).
  destruct (decide (_game_state g ≠ UNFINISHED)); [done|].
  destruct (decide (color piece ≠ _turn g)); [done|].
  destruct (valid_move piece start end_ (_board g)) as [[|]| |]; simpl; try done.
  destruct (_board g !! end_) as [[t|]|]; simpl; try done.
  destruct (bool_decide (color t = _turn g)); done.
Qed.

(** C3.  When the piece on the start square is a Chinchilla or an Emu and
    some square strictly between start and end, on the unit-step walk from
    the one to the other, is occupied, [make_move] returns [False] and
    changes nothing.  When it is a Wombat or a Cuttlefish the returned
    value is the same for every board that agrees on the start and the end
    square: the squares in between are not looked at.  In particular a
    Wombat jumps four squares over three occupied ones. *)
Theorem C3_slide_blocked_jump_free (g : AnimalGame) (start end_ : string) (piece : Piece) :
  _board g !! start = Some (Some piece) ->
  (is_sliding piece = true ->
   (exists sq, sq ∈ between start end_ /\ occupied (_board g) sq) ->
   make_move g start end_ = Ok (false, g)) /\
  (is_sliding piece = false ->
   forall board' : Board,
     board' !! start = _board g !! start ->
     board' !! end_ = _board g !! end_ ->
     returned (make_move (with_board g board') start end_) =
     returned (make_move g start end_)) /\
  (between "b1" "b5" = ["b2"; "b3"; "b4"] /\
   Forall (occupied (_board crowded_game)) (between "b1" "b5") /\
   returned (make_move crowded_game "b1" "b5") = Ok true).
Proof.
  intros Hstart. split; [|split].
  - intros Hslide (sq & Hsq & Hocc). by eapply make_move_blocked.
  - intros Hslide board' Hs He. by eapply make_move_jump.
  - split; [vm_compute; reflexivity|]. split; [|vm_compute; reflexivity].
    change (between "b1" "b5") with ["b2"; "b3"; "b4"].
    repeat constructor; eexists; vm_compute; reflexivity.
Qed.

Lemma C3_slide_blocked_jump_free_witness :
  make_move blocked_game "c1" "c3" = Ok (false, blocked_game).
Proof.
  apply (proj1 (C3_slide_blocked_jump_free blocked_game "c1" "c3" (Emu TANGERINE)
                  ltac:(vm_compute; reflexivity))).
  - reflexivity.
  - exists "c2". split.
    + vm_compute. left.
    + exists (Chinchilla TANGERINE). vm_compute. reflexivity.
Defined.

(** ** Invariants of play *)

Lemma new_game_board :
  _board new_game =
  <["g7" := Some (Chinchilla AMETHYST)]> (<["g1" := Some (Chinchilla TANGERINE)]>
  (<["f7" := Some (Wombat AMETHYST)]> (<["f1" := Some (Wombat TANGERINE)]>
  (<["e7" := Some (Emu AMETHYST)]> (<["e1" := Some (Emu TANGERINE)]>
  (<["d7" := Some (Cuttlefish AMETHYST)]> (<["d1" := Some (Cuttlefish TANGERINE)]>
  (<["c7" := Some (Emu AMETHYST)]> (<["c1" := Some (Emu TANGERINE)]>
  (<["b7" := Some (Wombat AMETHYST)]> (<["b1" := Some (Wombat TANGERINE)]>
  (<["a7" := Some (Chinchilla AMETHYST)]> (<["a1" := Some (Chinchilla TANGERINE)]>
   ∅))))))))))))).
Proof. vm_compute. reflexivity. Qed.

Lemma new_game_keys (sq : string) (v : option Piece) :
  _board new_game !! sq = Some v -> sq ∈ home_squares.
Proof.
  rewrite new_game_board.
  repeat (rewrite lookup_insert; case_decide;
          [subst sq; intros _; unfold home_squares; simpl;
           repeat first [apply list_elem_of_here | apply list_elem_of_further]|]).
  by rewrite lookup_empty.
Qed.

Lemma new_game_one_cuttlefish (side : Color) : one_cuttlefish new_game side.
Proof.
  exists (match side with TANGERINE => "d1" | AMETHYST => "d7" end). split.
  - by destruct side.
  - intros sq'. unfold cuttlefish_at. rewrite new_game_board.
    repeat (rewrite lookup_insert; case_decide;
            [subst sq'; intros [= E]; by destruct side|]).
    by rewrite lookup_empty.
Qed.

Lemma __init___inv (g : AnimalGame) : __init__ = Ok g -> g = new_game.
Proof. rewrite __init___new_game. by intros [= <-]. Qed.

(** The status moves away from UNFINISHED only, never back. *)
Lemma make_move_status (g : AnimalGame) (start end_ : string) (b : bool) (g' : AnimalGame) :
  make_move g start end_ = Ok (b, g') ->
  _game_state g' = UNFINISHED -> _game_state g = UNFINISHED.
Proof.
  destruct b; intros H.
  - by apply make_move_true in H as (piece & Hst & _).
  - apply make_move_false in H. by subst g'.
Qed.

(** A move that leaves the game UNFINISHED keeps each side's one Cuttlefish. *)
Lemma make_move_one_cuttlefish (g : AnimalGame) (start end_ : string) (b : bool)
    (g' : AnimalGame) (side : Color) :
  make_move g start end_ = Ok (b, g') ->
  _game_state g' = UNFINISHED ->
  one_cuttlefish g side -> one_cuttlefish g' side.
Proof.
  destruct b; intros H Hopen (sq0 & Hsq0 & Huniq).
  2:{ apply make_move_false in H. subst g'. by exists sq0. }
  apply make_move_true in H as (piece & Hst & Hstart & Hcol & Hshape & Hfoe & Hclear & ->).
  pose proof (valid_move_true_neq _ _ _ _ Hshape) as Hne.
  assert (forall c, dict_get (_board g) end_ <> Some (Cuttlefish c)) as Htarget.
  { intros c Hc. unfold moved in Hopen. simpl in Hopen. rewrite Hc in Hopen.
    by destruct c. }
  unfold one_cuttlefish, cuttlefish_at in *. unfold moved. simpl.
  destruct (decide (sq0 = start)) as [->|Hsq0start].
  - rewrite Hstart in Hsq0. injection Hsq0 as ->.
    exists end_. split; [by rewrite lookup_insert_ne, lookup_insert_eq|].
    intros sq'. rewrite !lookup_insert. repeat case_decide; try done.
    intros Hsq'. apply Huniq in Hsq'. congruence.
  - assert (sq0 <> end_) as Hsq0end.
    { intros ->. apply (Htarget side). unfold dict_get. by rewrite Hsq0. }
    exists sq0. split; [by rewrite !lookup_insert_ne|].
    intros sq'. rewrite !lookup_insert. repeat case_decide; try done.
    + subst sq'. intros [= ->]. exfalso. apply Hsq0start. symmetry. by apply Huniq.
    + apply Huniq.
Qed.

(** A Cuttlefish that is gone after a call was captured by that call, and
    the call ended the game. *)
Lemma make_move_cuttlefish_gone (g : AnimalGame) (start end_ : string) (b : bool)
    (g' : AnimalGame) (side : Color) :
  make_move g start end_ = Ok (b, g') ->
  has_cuttlefish g side ->
  ~ has_cuttlefish g' side ->
  b = true /\
  dict_get (_board g) end_ = Some (Cuttlefish side) /\
  side = other_side (_turn g) /\
  get_game_state g = UNFINISHED /\
  get_game_state g' = won_by (_turn g).
Proof.
  destruct b; intros H [sq0 Hsq0] Hgone.
  2:{ apply make_move_false in H. subst g'. exfalso. apply Hgone. by exists sq0. }
  apply make_move_true in H as (piece & Hst & Hstart & Hcol & Hshape & Hfoe & Hclear & ->).
  pose proof (valid_move_true_neq _ _ _ _ Hshape) as Hne.
  unfold has_cuttlefish, cuttlefish_at in *.
  assert (piece <> Cuttlefish side) as Hpiece.
  { intros ->. apply Hgone. exists end_. unfold moved. simpl.
    by rewrite lookup_insert_ne, lookup_insert_eq. }
  assert (sq0 <> start) as Hsq0start by congruence.
  assert (sq0 = end_) as ->.
  { destruct (decide (sq0 = end_)) as [|Hsq0end]; [done|].
    exfalso. apply Hgone. exists sq0. unfold moved. simpl. by rewrite !lookup_insert_ne. }
  assert (dict_get (_board g) end_ = Some (Cuttlefish side)) as Htarget.
  { unfold dict_get. by rewrite Hsq0. }
  specialize (Hfoe _ Htarget). simpl in Hfoe.
  pose proof (neq_other_side _ _ Hfoe) as Hside.
  split; [done|]. split; [done|]. split; [done|]. split; [done|].
  unfold get_game_state, moved. simpl. rewrite Htarget, Hside. by destruct (_turn g).
Qed.

Section Reachable.
Variable P : string -> Prop.

Lemma reachable_one_cuttlefish (g : AnimalGame) (side : Color) :
  reachable P g -> _game_state g = UNFINISHED -> one_cuttlefish g side.
Proof.
  induction 1 as [g Hinit|g start end_ b g' Hg IH Hs He Hmove]; intros Hopen.
  - apply __init___inv in Hinit as ->. apply new_game_one_cuttlefish.
  - eapply make_move_one_cuttlefish; [done|done|].
    apply IH. by eapply make_move_status.
Qed.

(** Every key of the board is a home square or was given as a coordinate. *)
Lemma reachable_keys (g : AnimalGame) (sq : string) (v : option Piece) :
  (forall s, s ∈ home_squares -> P s) ->
  reachable P g -> _board g !! sq = Some v -> P sq.
Proof.
  intros Hhome Hg. revert sq v.
  induction Hg as [g Hinit|g start end_ [|] g' Hg IH Hs He Hmove]; intros sq v.
  - apply __init___inv in Hinit as ->. intros H. by eapply Hhome, new_game_keys.
  - apply make_move_true in Hmove as (piece & _ & _ & _ & _ & _ & _ & ->).
    unfold moved. simpl. rewrite !lookup_insert. repeat case_decide; subst; try done.
    apply IH.
  - apply make_move_false in Hmove as ->. apply IH.
Qed.

(** Every key of the board can be read as a coordinate. *)
Lemma reachable_keys_coords (g : AnimalGame) (sq : string) (v : option Piece) :
  reachable P g -> _board g !! sq = Some v -> exists c r, coords sq = Some (c, r).
Proof.
  intros Hg. revert sq v.
  induction Hg as [g Hinit|g start end_ [|] g' Hg IH Hs He Hmove]; intros sq v.
  - apply __init___inv in Hinit as ->. intros H. apply new_game_keys in H.
    unfold home_squares in H. simpl in H.
    repeat (apply elem_of_cons in H as [->|H]; [by eexists _, _|]).
    by apply elem_of_nil in H.
  - apply make_move_true in Hmove as (piece & _ & Hstart & _ & Hshape & _ & _ & ->).
    destruct (valid_move_Ok_coords _ _ _ _ _ Hshape) as (cs & rs & ce & re & Hcs & Hce).
    unfold moved. simpl. rewrite !lookup_insert. repeat case_decide; subst; eauto.
  - apply make_move_false in Hmove as ->. apply IH.
Qed.

Lemma reachable_play (g : AnimalGame) (moves : list (string * string))
    (rs : list bool) (g' : AnimalGame) :
  reachable P g ->
  Forall (fun m => P m.1 /\ P m.2) moves ->
  play g moves = Ok (rs, g') ->
  reachable P g'.
Proof.
  intros Hg Hmoves. revert g rs Hg.
  induction Hmoves as [|[start end_] moves [Hs He] _ IH]; intros g rs Hg H.
  - by injection H as _ <-.
  - simpl in H. apply bind_Ok in H as ([b g1] & Hmove & H).
    apply bind_Ok in H as ([rs1 g2] & Hplay & H). injection H as _ <-.
    simpl in *. eapply IH; [|done]. by apply (reachable_move P g start end_ b g1).
Qed.
End Reachable.

(** C6.  In every game reached from a new game by calls of [make_move] with
    well-formed coordinates: the keys of the board are squares of the 7x7
    grid and a square holds at most one piece; while the status is
    UNFINISHED each side has exactly one Cuttlefish on the board; and if a
    call makes a side's Cuttlefish disappear, that call returned [True], the
    Cuttlefish stood on the destination and belonged to the opponent of the
    mover, and the same call set the status to "won by the mover". *)
Theorem C6_one_cuttlefish_each (g : AnimalGame) :
  reachable (fun s => well_formed s = true) g ->
  (forall sq v, _board g !! sq = Some v -> well_formed sq = true) /\
  (forall sq p q,
     _board g !! sq = Some (Some p) -> _board g !! sq = Some (Some q) -> p = q) /\
  (get_game_state g = UNFINISHED -> forall side, one_cuttlefish g side) /\
  (forall start end_ b g' side,
     well_formed start = true -> well_formed end_ = true ->
     make_move g start end_ = Ok (b, g') ->
     has_cuttlefish g side -> ~ has_cuttlefish g' side ->
     b = true /\
     dict_get (_board g) end_ = Some (Cuttlefish side) /\
     side = other_side (_turn g) /\
     get_game_state g = UNFINISHED /\
     get_game_state g' = won_by (_turn g)).
Proof.
  intros Hg. split; [|split; [|split]].
  - intros sq v Hsq.
    apply (reachable_keys (fun s => well_formed s = true) g sq v); [|done|done].
    intros s Hs. unfold home_squares in Hs. simpl in Hs.
    repeat (apply elem_of_cons in Hs as [->|Hs]; [done|]).
    by apply elem_of_nil in Hs.
  - intros sq p q Hp Hq. congruence.
  - intros Hopen side. by eapply reachable_one_cuttlefish.
  - intros start end_ b g' side _ _. apply make_move_cuttlefish_gone.
Qed.

Lemma C6_one_cuttlefish_each_witness :
  (one_cuttlefish (after wombat_attack) TANGERINE /\
   one_cuttlefish (after wombat_attack) AMETHYST) /\
  (true = true /\
   dict_get (_board (after wombat_attack)) "d7" = Some (Cuttlefish AMETHYST) /\
   AMETHYST = other_side (_turn (after wombat_attack)) /\
   get_game_state (after wombat_attack) = UNFINISHED /\
   get_game_state finished_game = won_by (_turn (after wombat_attack))).
Proof.
  assert (reachable (fun s => well_formed s = true) (after wombat_attack)) as Hreach.
  { apply (reachable_play _ new_game wombat_attack [true; true; true; true]).
    - apply reachable_new. vm_compute. reflexivity.
    - repeat constructor.
    - vm_compute. reflexivity. }
  destruct (C6_one_cuttlefish_each (after wombat_attack) Hreach)
    as (_ & _ & Hone & Hgone).
  split.
  - split; apply Hone; vm_compute; reflexivity.
  - apply (Hgone "c6" "d7" true finished_game AMETHYST).
    + reflexivity.
    + reflexivity.
    + vm_compute. reflexivity.
    + exists "d7". vm_compute. reflexivity.
    + intros [sq Hsq]. unfold cuttlefish_at in Hsq.
      assert (bool_decide (map_Forall (fun (_ : string) (v : option Piece) =>
                                         v <> Some (Cuttlefish AMETHYST))
                             (_board finished_game)) = true) as Hall.
      { vm_compute. reflexivity. }
      apply bool_decide_eq_true in Hall.
      exact (Hall sq _ Hsq eq_refl).
Defined.

(** ** Malformed coordinates *)

Lemma z_not_column : "z"%char ∉ COLUMNS.
Proof.
  unfold COLUMNS. intros H.
  repeat (apply elem_of_cons in H as [H|H]; [discriminate|]).
  by apply elem_of_nil in H.
Qed.

(** C10 as stated fails once the game is over: AMETHYST is to move and has
    a Chinchilla on a5, the end column z is no column, and the call returns
    [False] instead of raising. *)
Lemma C10_finished_game_counterexample :
  reachable (fun s => well_formed s = true) finished_game /\
  _board finished_game !! "a5" = Some (Some (Chinchilla AMETHYST)) /\
  color (Chinchilla AMETHYST) = _turn finished_game /\
  ("z"%char ∉ COLUMNS) /\
  make_move finished_game "a5" "z5" = Ok (false, finished_game) /\
  make_move finished_game "a5" "z5" <> Raise ValueError.
Proof.
  split.
  { apply (reachable_play _ new_game (wombat_attack ++ [("c6", "d7")])
             [true; true; true; true; true] finished_game).
    - apply reachable_new, __init___new_game.
    - repeat constructor.
    - vm_compute. reflexivity. }
  split; [vm_compute; reflexivity|]. split; [vm_compute; reflexivity|].
  split; [apply z_not_column|].
  split; [vm_compute; reflexivity|]. vm_compute. discriminate.
Qed.

(** C10, amended.  A start key that is not in the board makes [make_move]
    return [False]; in a game reached from a new game by calls of
    [make_move], whatever the strings, a start whose column letter is
    unknown is such a key.  While the status is UNFINISHED, if the start
    square (a non-empty key) holds a piece of the side to move and the
    column letter of the end square is outside a-g, the call raises
    [ValueError]; once the game is won the call returns [False]. *)
Theorem C10_malformed_coordinates (g : AnimalGame) (start end_ : string) :
  (_board g !! start = None -> make_move g start end_ = Ok (false, g)) /\
  (reachable (fun _ => True) g ->
   (forall c rest, start = String c rest -> c ∉ COLUMNS) ->
   _board g !! start = None) /\
  (forall piece c rest,
     get_game_state g = UNFINISHED ->
     _board g !! start = Some (Some piece) ->
     color piece = _turn g ->
     start <> "" ->
     end_ = String c rest ->
     c ∉ COLUMNS ->
     make_move g start end_ = Raise ValueError) /\
  (get_game_state g <> UNFINISHED -> make_move g start end_ = Ok (false, g)).
Proof.
  split; [|split; [|split]].
  - intros Hstart. unfold make_move. rewrite Hstart. by case_decide.
  - intros Hg Hcol. destruct (_board g !! start) as [v|] eqn:Hstart; [|done].
    destruct (reachable_keys_coords _ _ _ _ Hg Hstart) as (cs & rs & Hcoords).
    apply coords_Some_inv in Hcoords as (c0 & r0 & rest & -> & Hc0 & _).
    exfalso. apply (Hcol c0 (String r0 rest) eq_refl).
    pose proof (list_index_COLUMNS c0 Hc0) as Hidx.
    destruct (decide (c0 ∈ COLUMNS)) as [|Hnot]; [done|].
    rewrite (list_index_COLUMNS_not_in c0 Hnot) in Hidx. discriminate.
  - intros piece c rest Hopen Hstart Hturn Hne -> Hc.
    destruct start as [|c0 rest0]; [done|].
    unfold make_move. rewrite Hstart.
    rewrite decide_False by (intros Hst; by apply Hst).
    rewrite decide_False by (intros Hcol; by apply Hcol).
    assert (column_difference (String c0 rest0) (String c rest) = Raise ValueError) as Hdx.
    { unfold column_difference, str_getitem. simpl.
      destruct (list_index_outcome c0) as [[i0 ->]| ->]; simpl; [|done].
      by rewrite (list_index_COLUMNS_not_in c Hc). }
    destruct piece; simpl;
      unfold Chinchilla_valid_move, Wombat_valid_move, Emu_valid_move,
        Cuttlefish_valid_move; by rewrite Hdx.
  - apply make_move_finished.
Qed.

Lemma C10_malformed_coordinates_witness :
  make_move new_game "c1" "z1" = Raise ValueError.
Proof.
  apply (proj1 (proj2 (proj2 (C10_malformed_coordinates new_game "c1" "z1")))
           (Emu TANGERINE) "z"%char "1").
  - reflexivity.
  - vm_compute. reflexivity.
  - reflexivity.
  - discriminate.
  - reflexivity.
  - apply z_not_column.
Defined.

(** ** The unit tests of the repository, run on the embedding *)

Example test_init_board_setup :
  _board new_game !! "a1" = Some (Some (Chinchilla TANGERINE)) /\
  _board new_game !! "d7" = Some (Some (Cuttlefish AMETHYST)).
Proof. split; vm_compute; reflexivity. Qed.

Example test_game_starts_unfinished : get_game_state new_game = UNFINISHED.
Proof. reflexivity. Qed.

Example test_valid_emu_move_and_turn_change :
  exists g,
    make_move new_game "c1" "c2" = Ok (true, g) /\
    _board g !! "c1" = Some None /\
    _board g !! "c2" = Some (Some (Emu TANGERINE)) /\
    _turn g = AMETHYST.
Proof.
  exists (moved new_game "c1" "c2" (Emu TANGERINE)).
  repeat split; vm_compute; reflexivity.
Qed.

Example test_invalid_move_wrong_turn :
  make_move new_game "c7" "c6" = Ok (false, new_game).
Proof. vm_compute. reflexivity. Qed.

Example test_move_to_friendly_piece_fails :
  returned (make_move (after [("c1", "c2")]) "b7" "a7") = Ok false.
Proof. vm_compute. reflexivity. Qed.

Example test_capture_cuttlefish_ends_game :
  exists g,
    make_move
      (with_board new_game
         (<["d2" := Some (Emu TANGERINE)]>
            (<["d5" := Some (Cuttlefish AMETHYST)]> (_board new_game))))
      "d2" "d5" = Ok (true, g) /\
    get_game_state g = TANGERINE_WON.
Proof. eexists. split; vm_compute; reflexivity. Qed.

Example test_same_player_cannot_move_twice :
  returned (make_move (after [("c1", "c2")]) "c2" "c3") = Ok false /\
  _turn (after [("c1", "c2"); ("c2", "c3")]) = AMETHYST.
Proof. split; vm_compute; reflexivity. Qed.

Example test_piece_symbols :
  symbol (Chinchilla TANGERINE) = "C" /\ symbol (Wombat TANGERINE) = "W" /\
  symbol (Emu TANGERINE) = "E" /\ symbol (Cuttlefish TANGERINE) = "U".
Proof. repeat split. Qed.

Example test_invalid_path_blocked_by_piece :
  returned (make_move blocked_game "c1" "c3") = Ok false.
Proof. vm_compute. reflexivity. Qed.

(** ** The board dump *)

Example test_print_board_runs :
  print_board new_game =
  Ok ["7 C W E U E W C "; "6 . . . . . . . "; "5 . . . . . . . "; "4 . . . . . . . ";
      "3 . . . . . . . "; "2 . . . . . . . "; "1 C W E U E W C "; "  a b c d e f g"].
Proof. vm_compute. reflexivity. Qed.

Lemma cell_one_char (board : Board) (col row : Z) :
  exists ch, cell board col row = String ch "".
Proof. unfold cell. destruct (dict_get board _) as [[]|]; by eexists. Qed.

(** The inner loop of [print_board] never raises: it builds the row. *)
Lemma print_board_cells (board : Board) (row : Z) (cols : list Z) (line : string) :
  Forall (fun col => 0 <= col < 7) cols ->
  for_each cols
    (fun line column =>
       c ← list_getitem COLUMNS column;
       let sq := String c "" +:+ str row in
       let piece := dict_get board sq in
       match piece with
       | Some p => Ok (line +:+ (symbol p +:+ " "))
       | None => Ok (line +:+ ". ")
       end) line
  = Ok (foldl (fun line col => line +:+ (cell board col row +:+ " ")) line cols).
Proof.
  intros Hcols. revert line. induction Hcols as [|col cols Hcol _ IH]; intros line; [done|].
  simpl. rewrite list_getitem_COLUMNS by done. simpl.
  rewrite position_square. unfold cell at 2.
  destruct (dict_get board (square col row)); simpl; apply IH.
Qed.

Lemma range_7_columns : Forall (fun col => 0 <= col < 7) (range 7).
Proof. unfold range. simpl. repeat constructor; lia. Qed.

Lemma print_board_rows (board : Board) (rows : list Z) (out : list string) :
  for_each rows
    (fun out row =>
       let line := str row +:+ " " in
       line ← for_each (range 7)
                 (fun line column =>
                    c ← list_getitem COLUMNS column;
                    let sq := String c "" +:+ str row in
                    let piece := dict_get board sq in
                    match piece with
                    | Some p => Ok (line +:+ (symbol p +:+ " "))
                    | None => Ok (line +:+ ". ")
                    end)
                 line;
       Ok (out ++ [line])) out
  = Ok (out ++ map (row_text board) rows).
Proof.
  revert out. induction rows as [|row rows IH]; intros out.
  - simpl. by rewrite app_nil_r.
  - cbn [for_each]. cbv zeta. rewrite print_board_cells by apply range_7_columns.
    simpl. rewrite IH. by rewrite <- app_assoc.
Qed.

Lemma print_board_eq (g : AnimalGame) :
  print_board g = Ok (map (row_text (_board g)) (range_down 7 0) ++ ["  a b c d e f g"]).
Proof. unfold print_board. by rewrite print_board_rows. Qed.

Lemma row_text_shape (board : Board) (row col : Z) :
  1 <= row <= 7 -> 0 <= col < 7 ->
  String.length (row_text board row) = 16%nat /\
  substring 0 2 (row_text board row) = str row +:+ " " /\
  substring (Z.to_nat (2 + 2 * col)) 2 (row_text board row) = cell board col row +:+ " ".
Proof.
  intros Hrow Hcol. unfold row_text.
  change (range 7) with [0; 1; 2; 3; 4; 5; 6]. cbn [foldl].
  destruct (cell_one_char board 0 row) as [c0 E0].
  destruct (cell_one_char board 1 row) as [c1 E1].
  destruct (cell_one_char board 2 row) as [c2 E2].
  destruct (cell_one_char board 3 row) as [c3 E3].
  destruct (cell_one_char board 4 row) as [c4 E4].
  destruct (cell_one_char board 5 row) as [c5 E5].
  destruct (cell_one_char board 6 row) as [c6 E6].
  assert (col = 0 \/ col = 1 \/ col = 2 \/ col = 3 \/ col = 4 \/ col = 5 \/ col = 6)
    as Hcols by lia.
  assert (row = 1 \/ row = 2 \/ row = 3 \/ row = 4 \/ row = 5 \/ row = 6 \/ row = 7)
    as Hrows by lia.
  destruct Hcols as [->|[->|[->|[->|[->|[->| ->]]]]]];
    rewrite E0, E1, E2, E3, E4, E5, E6;
    destruct Hrows as [->|[->|[->|[->|[->|[->| ->]]]]]]; done.
Qed.

(** X17.  [print_board] never raises, whatever the board: it prints eight
    lines, seven rows from row 7 down to row 1 and the column header.  Each
    row line is 16 characters long, starts with the row number and a space,
    and shows at offset 2 + 2 * col the symbol of the piece on that square
    (a dot when the key is absent or holds [None]) followed by a space. *)
Theorem print_board_shows_the_grid (g : AnimalGame) :
  exists lines,
    print_board g = Ok lines /\
    length lines = 8%nat /\
    lines !! 7%nat = Some "  a b c d e f g" /\
    forall row col, 1 <= row <= 7 -> 0 <= col < 7 ->
      exists line,
        lines !! Z.to_nat (7 - row) = Some line /\
        String.length line = 16%nat /\
        substring 0 2 line = str row +:+ " " /\
        substring (Z.to_nat (2 + 2 * col)) 2 line = cell (_board g) col row +:+ " ".
Proof.
  eexists. split; [apply print_board_eq|]. split; [done|]. split; [done|].
  intros row col Hrow Hcol. exists (row_text (_board g) row). split.
  - assert (row = 1 \/ row = 2 \/ row = 3 \/ row = 4 \/ row = 5 \/ row = 6 \/ row = 7)
      as Hrows by lia.
    destruct Hrows as [->|[->|[->|[->|[->|[->| ->]]]]]]; reflexivity.
  - by apply row_text_shape.
Qed.

(** ** The other shape predicates *)

Lemma Wombat_valid_move_coords (start end_ : string) (board : Board) (cs rs ce re : Z) :
  coords start = Some (cs, rs) ->
  coords end_ = Some (ce, re) ->
  Wombat_valid_move start end_ board =
  Ok (bool_decide ((Z.abs (cs - ce) = 4 /\ Z.abs (rs - re) = 0) \/
                   (Z.abs (rs - re) = 4 /\ Z.abs (cs - ce) = 0) \/
                   (Z.abs (cs - ce) = 1 /\ Z.abs (rs - re) = 1))).
Proof.
  intros Hs He. destruct (differences_coords _ _ _ _ _ _ Hs He) as [Hdx Hdy].
  unfold Wombat_valid_move. rewrite Hdx, Hdy. simpl. f_equal.
  rewrite !Z.abs_idemp.
  repeat case_bool_decide; simpl; try done; lia.
Qed.

Lemma Cuttlefish_valid_move_coords (start end_ : string) (board : Board) (cs rs ce re : Z) :
  coords start = Some (cs, rs) ->
  coords end_ = Some (ce, re) ->
  Cuttlefish_valid_move start end_ board =
  Ok (bool_decide ((Z.abs (cs - ce) = 2 /\ Z.abs (rs - re) = 2) \/
                   (Z.abs (cs - ce) = 1 /\ Z.abs (rs - re) = 0) \/
                   (Z.abs (cs - ce) = 0 /\ Z.abs (rs - re) = 1))).
Proof.
  intros Hs He. destruct (differences_coords _ _ _ _ _ _ Hs He) as [Hdx Hdy].
  unfold Cuttlefish_valid_move. rewrite Hdx, Hdy. simpl. f_equal.
  repeat case_bool_decide; simpl; try done; lia.
Qed.

(** X1.  The Chinchilla's [valid_move] returns [True] exactly when both
    coordinates can be read and the end square is one of the up to eight
    neighbours of the start square: it differs from it, by at most one
    column and at most one row. *)
Theorem Chinchilla_valid_move_neighbours (start end_ : string) (board : Board) :
  Chinchilla_valid_move start end_ board = Ok true <->
  exists cs rs ce re,
    coords start = Some (cs, rs) /\ coords end_ = Some (ce, re) /\
    (cs, rs) <> (ce, re) /\ Z.abs (cs - ce) <= 1 /\ Z.abs (rs - re) <= 1.
Proof.
  split.
  - intros H.
    destruct (valid_move_Ok_coords (Chinchilla TANGERINE) start end_ board true H)
      as (cs & rs & ce & re & Hs & He).
    exists cs, rs, ce, re. split; [done|]. split; [done|].
    rewrite (Chinchilla_valid_move_coords _ _ _ _ _ _ _ Hs He) in H.
    injection H as H. apply bool_decide_eq_true in H.
    split; [|lia]. intros [= -> ->]. lia.
  - intros (cs & rs & ce & re & Hs & He & Hne & Hdx & Hdy).
    rewrite (Chinchilla_valid_move_coords _ _ _ _ _ _ _ Hs He).
    f_equal. apply bool_decide_eq_true.
    destruct (decide (cs = ce)), (decide (rs = re)); try lia.
    exfalso. apply Hne. congruence.
Qed.

(** X2.  The Wombat's [valid_move] returns [True] exactly when both
    coordinates can be read and the move is four squares along a rank or a
    file, or one square along a diagonal. *)
Theorem Wombat_valid_move_jump (start end_ : string) (board : Board) :
  Wombat_valid_move start end_ board = Ok true <->
  exists cs rs ce re,
    coords start = Some (cs, rs) /\ coords end_ = Some (ce, re) /\
    ((Z.abs (cs - ce) = 4 /\ rs = re) \/
     (Z.abs (rs - re) = 4 /\ cs = ce) \/
     (Z.abs (cs - ce) = 1 /\ Z.abs (rs - re) = 1)).
Proof.
  split.
  - intros H.
    destruct (valid_move_Ok_coords (Wombat TANGERINE) start end_ board true H)
      as (cs & rs & ce & re & Hs & He).
    exists cs, rs, ce, re. split; [done|]. split; [done|].
    rewrite (Wombat_valid_move_coords _ _ _ _ _ _ _ Hs He) in H.
    injection H as H. apply bool_decide_eq_true in H. lia.
  - intros (cs & rs & ce & re & Hs & He & H).
    rewrite (Wombat_valid_move_coords _ _ _ _ _ _ _ Hs He).
    f_equal. apply bool_decide_eq_true. lia.
Qed.

(** X3.  The Cuttlefish's [valid_move] returns [True] exactly when both
    coordinates can be read and the move is two squares along a diagonal,
    or one square along a rank or a file. *)
Theorem Cuttlefish_valid_move_jump (start end_ : string) (board : Board) :
  Cuttlefish_valid_move start end_ board = Ok true <->
  exists cs rs ce re,
    coords start = Some (cs, rs) /\ coords end_ = Some (ce, re) /\
    ((Z.abs (cs - ce) = 2 /\ Z.abs (rs - re) = 2) \/
     (Z.abs (cs - ce) = 1 /\ rs = re) \/
     (cs = ce /\ Z.abs (rs - re) = 1)).
Proof.
  split.
  - intros H.
    destruct (valid_move_Ok_coords (Cuttlefish TANGERINE) start end_ board true H)
      as (cs & rs & ce & re & Hs & He).
    exists cs, rs, ce, re. split; [done|]. split; [done|].
    rewrite (Cuttlefish_valid_move_coords _ _ _ _ _ _ _ Hs He) in H.
    injection H as H. apply bool_decide_eq_true in H. lia.
  - intros (cs & rs & ce & re & Hs & He & H).
    rewrite (Cuttlefish_valid_move_coords _ _ _ _ _ _ _ Hs He).
    f_equal. apply bool_decide_eq_true. lia.
Qed.

(** What each class computes once both coordinates are read. *)
Lemma valid_move_coords (piece : Piece) (start end_ : string) (board : Board)
    (cs rs ce re : Z) :
  coords start = Some (cs, rs) ->
  coords end_ = Some (ce, re) ->
  valid_move piece start end_ board =
  Ok (let dx := Z.abs (cs - ce) in
      let dy := Z.abs (rs - re) in
      match piece with
      | Chinchilla _ => bool_decide (Z.max dx dy = 1)
      | Wombat _ =>
          bool_decide ((dx = 4 /\ dy = 0) \/ (dy = 4 /\ dx = 0) \/ (dx = 1 /\ dy = 1))
      | Emu _ =>
          bool_decide ((dx = 0 /\ 1 <= dy <= 3) \/ (dy = 0 /\ 1 <= dx <= 3) \/
                       (dx = 1 /\ dy = 1))
      | Cuttlefish _ =>
          bool_decide ((dx = 2 /\ dy = 2) \/ (dx = 1 /\ dy = 0) \/ (dx = 0 /\ dy = 1))
      end).
Proof.
  intros Hs He. destruct piece; simpl.
  - by apply Chinchilla_valid_move_coords.
  - by apply Wombat_valid_move_coords.
  - by apply Emu_valid_move_coords.
  - by apply Cuttlefish_valid_move_coords.
Qed.

(** X4.  Every shape predicate treats a move and its reverse alike: if it
    returns a boolean for a move from [start] to [end_], it returns the same
    boolean for the move from [end_] to [start]. *)
Theorem valid_move_reverse (piece : Piece) (start end_ : string) (board board' : Board)
    (r : bool) :
  valid_move piece start end_ board = Ok r ->
  valid_move piece end_ start board' = Ok r.
Proof.
  intros H.
  destruct (valid_move_Ok_coords _ _ _ _ _ H) as (cs & rs & ce & re & Hs & He).
  rewrite (valid_move_coords _ _ _ _ _ _ _ _ Hs He) in H.
  rewrite (valid_move_coords _ _ _ _ _ _ _ _ He Hs).
  rewrite <- H. cbv zeta.
  replace (Z.abs (ce - cs)) with (Z.abs (cs - ce)) by lia.
  by replace (Z.abs (re - rs)) with (Z.abs (rs - re)) by lia.
Qed.

Lemma valid_move_reverse_witness :
  valid_move (Wombat AMETHYST) "b5" "b1" ∅ = Ok true.
Proof. apply (valid_move_reverse (Wombat AMETHYST) "b1" "b5" ∅ ∅ true). reflexivity. Defined.

(** X5.  A shape predicate returns a boolean exactly when both coordinates
    can be read: a column letter a-g, then a decimal digit (anything after
    the second character is ignored).  Otherwise it raises: [IndexError]
    for an empty start, [ValueError] for a start whose first character is
    no column letter. *)
Theorem valid_move_returns_iff_readable (piece : Piece) (start end_ : string)
    (board : Board) :
  ((exists r, valid_move piece start end_ board = Ok r) <->
   (exists cs rs ce re, coords start = Some (cs, rs) /\ coords end_ = Some (ce, re))) /\
  ((exists r, valid_move piece start end_ board = Ok r) \/
   (exists e, valid_move piece start end_ board = Raise e)) /\
  valid_move piece "" end_ board = Raise IndexError /\
  (forall c rest,
     c ∉ COLUMNS -> valid_move piece (String c rest) end_ board = Raise ValueError).
Proof.
  split; [|split; [|split]].
  - split.
    + intros [r H]. by eapply valid_move_Ok_coords.
    + intros (cs & rs & ce & re & Hs & He). by eapply valid_move_coords_Ok.
  - pose proof (valid_move_outcome piece start end_ board) as H.
    destruct (valid_move piece start end_ board) as [r|e|]; [by eauto|by eauto|done].
  - by destruct piece.
  - intros c rest Hc.
    assert (column_difference (String c rest) end_ = Raise ValueError) as Hdx.
    { unfold column_difference, str_getitem. simpl.
      by rewrite (list_index_COLUMNS_not_in c Hc). }
    destruct piece; simpl;
      unfold Chinchilla_valid_move, Wombat_valid_move, Emu_valid_move,
        Cuttlefish_valid_move; by rewrite Hdx.
Qed.

(** ** [_path_clear] on arbitrary coordinates *)

(** The loop answers [True] only on reaching the end square. *)
Lemma path_loop_true_reaches (fuel : nat) (board : Board) (sc sr ce re : Z) :
  forall column row,
    path_loop fuel board sc sr ce re column row = Ok true ->
    exists k : nat, ce = column + Z.of_nat k * sc /\ re = row + Z.of_nat k * sr.
Proof.
  induction fuel as [|fuel IH]; intros column row H; [discriminate|].
  simpl in H.
  destruct (bool_decide (column ≠ ce) || bool_decide (row ≠ re)) eqn:Htest.
  - destruct (list_getitem COLUMNS column); simpl in H; try discriminate.
    destruct (dict_get board _); [discriminate|].
    apply IH in H as (k & Hc & Hr). exists (S k). lia.
  - apply orb_false_iff in Htest as [Hc Hr].
    apply bool_decide_eq_false in Hc, Hr. exists 0%nat.
    destruct (decide (column = ce)), (decide (row = re)); try done. lia.
Qed.

(** The only exception of the loop is the [IndexError] of [COLUMNS]. *)
Lemma path_loop_raises (fuel : nat) (board : Board) (sc sr ce re : Z) (e : exn) :
  forall column row,
    path_loop fuel board sc sr ce re column row = Raise e -> e = IndexError.
Proof.
  induction fuel as [|fuel IH]; intros column row H; [discriminate|].
  simpl in H.
  destruct (bool_decide (column ≠ ce) || bool_decide (row ≠ re)); [|discriminate].
  destruct (list_getitem_COLUMNS_outcome column) as [(c & Hc & _)|[Hc _]];
    rewrite Hc in H; simpl in H; [|congruence].
  destruct (dict_get board _); [discriminate|]. by eapply IH.
Qed.

Lemma between_same_square (start end_ : string) (c r : Z) :
  coords start = Some (c, r) -> coords end_ = Some (c, r) -> between start end_ = [].
Proof.
  intros Hs He. unfold between. rewrite Hs, He.
  by rewrite !Z.sub_diag.
Qed.

(** Two coordinates on a common rank, file or diagonal (or equal). *)
Lemma _path_clear_on_line (board : Board) (start end_ : string) (cs rs ce re : Z) :
  coords start = Some (cs, rs) ->
  coords end_ = Some (ce, re) ->
  (ce - cs = 0 \/ re - rs = 0 \/ Z.abs (ce - cs) = Z.abs (re - rs)) ->
  exists b : bool,
    _path_clear board start end_ = Ok b /\
    (b = true <-> forall sq, sq ∈ between start end_ -> dict_get board sq = None).
Proof.
  intros Hs He Hline.
  destruct (decide ((cs, rs) = (ce, re))) as [[= -> ->]|Hne].
  - exists true. rewrite (between_same_square _ _ _ _ Hs He). split.
    + unfold _path_clear. rewrite (_path_clear_fuel_coords _ _ _ _ _ _ _ _ Hs He).
      rewrite !Z.sub_diag. unfold path_fuel. simpl.
      by rewrite !bool_decide_eq_false_2 by lia.
    + split; [by intros _ sq ?%elem_of_nil|done].
  - apply (_path_clear_straight path_fuel board start end_ cs rs ce re Hs He Hline Hne).
    apply coords_range in Hs, He. unfold path_fuel. lia.
Qed.

(** X15.  [_path_clear] returns [True] exactly when both coordinates can
    be read, they lie on a common rank, file or diagonal, and every square
    strictly between them is free. *)
Theorem _path_clear_true_iff (board : Board) (start end_ : string) :
  _path_clear board start end_ = Ok true <->
  exists cs rs ce re,
    coords start = Some (cs, rs) /\ coords end_ = Some (ce, re) /\
    (ce - cs = 0 \/ re - rs = 0 \/ Z.abs (ce - cs) = Z.abs (re - rs)) /\
    forall sq, sq ∈ between start end_ -> dict_get board sq = None.
Proof.
  split.
  - intros H.
    destruct (_path_clear_fuel_cases start end_) as [(cs & rs & ce & re & Hs & He)|[e He]].
    2:{ unfold _path_clear in H. rewrite He in H. discriminate. }
    exists cs, rs, ce, re. split; [done|]. split; [done|].
    assert (ce - cs = 0 \/ re - rs = 0 \/ Z.abs (ce - cs) = Z.abs (re - rs)) as Hline.
    { unfold _path_clear in H. rewrite (_path_clear_fuel_coords _ _ _ _ _ _ _ _ Hs He) in H.
      apply path_loop_true_reaches in H as (k & Hc & Hr).
      pose proof (Z.sgn_spec (ce - cs)). pose proof (Z.sgn_spec (re - rs)). nia. }
    split; [done|].
    destruct (_path_clear_on_line board _ _ _ _ _ _ Hs He Hline) as (b & Hb & Hiff).
    apply Hiff. congruence.
  - intros (cs & rs & ce & re & Hs & He & Hline & Hfree).
    destruct (_path_clear_on_line board _ _ _ _ _ _ Hs He Hline) as (b & Hb & Hiff).
    rewrite Hb. f_equal. by apply Hiff.
Qed.

(** X18.  The loop of [_path_clear] ends on every input: with fuel for 14
    loop tests or more the result is the same, and it is a boolean or an
    exception.  When both coordinates can be read, the only exception is
    the [IndexError] of walking off [COLUMNS], and it needs a pair of
    squares that share no rank, file or diagonal. *)
Theorem _path_clear_always_ends (board : Board) (start end_ : string) (fuel : nat) :
  (14 <= fuel)%nat ->
  _path_clear_fuel fuel board start end_ = _path_clear board start end_ /\
  ((exists b, _path_clear board start end_ = Ok b) \/
   (exists e, _path_clear board start end_ = Raise e)) /\
  (forall cs rs ce re e,
     coords start = Some (cs, rs) -> coords end_ = Some (ce, re) ->
     _path_clear board start end_ = Raise e ->
     e = IndexError /\
     ce - cs <> 0 /\ re - rs <> 0 /\ Z.abs (ce - cs) <> Z.abs (re - rs)).
Proof.
  intros Hfuel. split; [by apply _path_clear_fuel_enough|]. split.
  - pose proof (_path_clear_terminates board start end_) as H.
    destruct (_path_clear board start end_) as [b|e|]; [by eauto|by eauto|done].
  - intros cs rs ce re e Hs He H. split.
    + unfold _path_clear in H. rewrite (_path_clear_fuel_coords _ _ _ _ _ _ _ _ Hs He) in H.
      by eapply path_loop_raises.
    + destruct (decide (ce - cs = 0 \/ re - rs = 0 \/ Z.abs (ce - cs) = Z.abs (re - rs)))
        as [Hline|Hline]; [|lia].
      destruct (_path_clear_on_line board _ _ _ _ _ _ Hs He Hline) as (b & Hb & _).
      congruence.
Qed.

Lemma _path_clear_always_ends_witness :
  _path_clear_fuel 14 ∅ "g1" "a3" = _path_clear ∅ "g1" "a3".
Proof. apply (_path_clear_always_ends ∅ "g1" "a3" 14). lia. Defined.

(** X16.  The path check never stops a Chinchilla: a move that its shape
    predicate accepts has no square in between, and [_path_clear] returns
    [True] for it on every board. *)
Theorem Chinchilla_path_always_clear (side : Color) (start end_ : string)
    (board board' : Board) :
  valid_move (Chinchilla side) start end_ board = Ok true ->
  between start end_ = [] /\ _path_clear board' start end_ = Ok true.
Proof.
  intros H.
  destruct (valid_move_Ok_coords _ _ _ _ _ H) as (cs & rs & ce & re & Hs & He).
  assert (between start end_ = []) as Hbetween.
  { simpl in H. rewrite (Chinchilla_valid_move_coords _ _ _ _ _ _ _ Hs He) in H.
    injection H as H. apply bool_decide_eq_true in H.
    unfold between. rewrite Hs, He.
    replace (Z.max (Z.abs (ce - cs)) (Z.abs (re - rs))) with 1 by lia. done. }
  split; [done|].
  destruct (_path_clear_sliding (Chinchilla side) start end_ board board' path_fuel eq_refl H)
    as (b & Hb & Hiff); [unfold path_fuel; lia|].
  unfold _path_clear. rewrite Hb. f_equal. apply Hiff.
  rewrite Hbetween. by intros sq ?%elem_of_nil.
Qed.

Lemma Chinchilla_path_always_clear_witness :
  between "a1" "b2" = [] /\ _path_clear (_board crowded_game) "a1" "b2" = Ok true.
Proof.
  apply (Chinchilla_path_always_clear TANGERINE "a1" "b2" ∅ (_board crowded_game)).
  reflexivity.
Defined.

(** ** The contract of [make_move] *)

(** The checks of [make_move], passed one after the other. *)
Lemma make_move_accept (g : AnimalGame) (start end_ : string) (piece : Piece) :
  _game_state g = UNFINISHED ->
  _board g !! start = Some (Some piece) ->
  color piece = _turn g ->
  valid_move piece start end_ (_board g) = Ok true ->
  (forall t, dict_get (_board g) end_ = Some t -> color t <> _turn g) ->
  (is_sliding piece = true -> _path_clear (_board g) start end_ = Ok true) ->
  make_move g start end_ = Ok (true, moved g start end_ piece).
Proof.
  intros Hst Hstart Hcol Hshape Hfoe Hclear. unfold make_move.
  rewrite decide_False by (intros Hne; by apply Hne).
  rewrite Hstart.
  rewrite decide_False by (intros Hne; by apply Hne).
  rewrite Hshape. simpl.
  assert (match dict_get (_board g) end_ with
          | Some t => bool_decide (color t = _turn g)
          | None => false
          end = false) as ->.
  { destruct (dict_get (_board g) end_) as [t|] eqn:Ht; [|done].
    apply bool_decide_eq_false. by apply Hfoe. }
  assert ((if is_sliding piece then _path_clear (_board g) start end_ else Ok true)
          = Ok true) as ->.
  { destruct (is_sliding piece); [by apply Hclear|done]. }
  simpl. unfold moved. do 2 f_equal. f_equal.
  - destruct (dict_get (_board g) end_) as [[| | |c]|] eqn:Ht; try done.
    by destruct c.
  - by destruct (_turn g).
Qed.

(** X7.  [make_move] returns [True] exactly when the game is UNFINISHED,
    the start square holds a piece of the side to move, the shape predicate
    of that piece accepts the move, the end square holds no piece of the
    same side and, for a Chinchilla or an Emu, every square strictly between
    start and end is free; the game after the call is then the game with the
    piece moved. *)
Theorem make_move_true_iff (g : AnimalGame) (start end_ : string) (g' : AnimalGame) :
  make_move g start end_ = Ok (true, g') <->
  exists piece,
    get_game_state g = UNFINISHED /\
    _board g !! start = Some (Some piece) /\
    color piece = _turn g /\
    valid_move piece start end_ (_board g) = Ok true /\
    (forall t, dict_get (_board g) end_ = Some t -> color t <> _turn g) /\
    (is_sliding piece = true ->
     forall sq, sq ∈ between start end_ -> dict_get (_board g) sq = None) /\
    g' = moved g start end_ piece.
Proof.
  split.
  - intros H. apply make_move_true in H
      as (piece & Hst & Hstart & Hcol & Hshape & Hfoe & Hclear & ->).
    exists piece. repeat (split; [done|]). split; [|done].
    intros Hslide. specialize (Hclear Hslide).
    destruct (_path_clear_sliding piece start end_ (_board g) (_board g) path_fuel
                Hslide Hshape) as (b & Hb & Hiff); [unfold path_fuel; lia|].
    apply Hiff. unfold _path_clear in Hclear. congruence.
  - intros (piece & Hst & Hstart & Hcol & Hshape & Hfoe & Hfree & ->).
    apply make_move_accept; try done.
    intros Hslide. specialize (Hfree Hslide).
    destruct (_path_clear_sliding piece start end_ (_board g) (_board g) path_fuel
                Hslide Hshape) as (b & Hb & Hiff); [unfold path_fuel; lia|].
    unfold _path_clear. rewrite Hb. f_equal. by apply Hiff.
Qed.

(** X6.  [make_move] raises exactly when the game is UNFINISHED, the start
    square holds a piece of the side to move and one of the two coordinates
    cannot be read; in every other case it returns a boolean.  It never
    runs forever. *)
Theorem make_move_raises_iff (g : AnimalGame) (start end_ : string) :
  ((exists e, make_move g start end_ = Raise e) <->
   get_game_state g = UNFINISHED /\
   exists piece,
     _board g !! start = Some (Some piece) /\ color piece = _turn g /\
     (coords start = None \/ coords end_ = None)) /\
  ((exists e, make_move g start end_ = Raise e) \/
   (exists b g', make_move g start end_ = Ok (b, g'))).
Proof.
  assert ((exists e, make_move g start end_ = Raise e) <->
          get_game_state g = UNFINISHED /\
          exists piece,
            _board g !! start = Some (Some piece) /\ color piece = _turn g /\
            (coords start = None \/ coords end_ = None)) as Hiff.
  { unfold make_move, get_game_state. split.
    - intros [e H].
      destruct (decide (_game_state g ≠ UNFINISHED)) as [|Hst]; [discriminate|].
      apply dec_stable in Hst.
      destruct (_board g !! start) as [[piece|]|] eqn:Hstart; try discriminate.
      destruct (decide (color piece ≠ _turn g)) as [|Hcol]; [discriminate|].
      apply dec_stable in Hcol.
      split; [done|]. exists piece. split; [done|]. split; [done|].
      destruct (coords start) as [[cs rs]|] eqn:Hs; [|by left].
      destruct (coords end_) as [[ce re]|] eqn:He; [|by right].
      exfalso.
      destruct (valid_move_coords_Ok piece start end_ (_board g) _ _ _ _ Hs He)
        as [shape Hshape].
      rewrite Hshape in H. simpl in H. destruct shape; simpl in H; [|discriminate].
      destruct (match dict_get (_board g) end_ with
                | Some t => bool_decide (color t = _turn g)
                | None => false
                end); [discriminate|].
      destruct (is_sliding piece) eqn:Hslide; simpl in H; [|discriminate].
      destruct (_path_clear_sliding piece start end_ (_board g) (_board g) path_fuel
                  Hslide Hshape) as (b & Hb & _); [unfold path_fuel; lia|].
      unfold _path_clear in H. rewrite Hb in H. simpl in H. by destruct b.
    - intros (Hst & piece & Hstart & Hcol & Hcoords).
      rewrite decide_False by (intros Hne; by apply Hne).
      rewrite Hstart.
      rewrite decide_False by (intros Hne; by apply Hne).
      pose proof (valid_move_outcome piece start end_ (_board g)) as Hout.
      destruct (valid_move piece start end_ (_board g)) as [shape|e|] eqn:Hshape;
        [|by exists e|done].
      exfalso.
      destruct (valid_move_Ok_coords _ _ _ _ _ Hshape) as (cs & rs & ce & re & Hs & He).
      destruct Hcoords; congruence. }
  split; [done|].
  pose proof (make_move_terminates g start end_) as Hout.
  destruct (make_move g start end_) as [[b g']|e|]; [right; by eauto|left; by eauto|done].
Qed.

(** X8.  A move onto a square that holds a piece of the side to move is
    rejected and changes nothing, whatever the piece and the shape, as soon
    as both coordinates can be read. *)
Theorem make_move_friendly_fire (g : AnimalGame) (start end_ : string) (t : Piece)
    (cs rs ce re : Z) :
  coords start = Some (cs, rs) ->
  coords end_ = Some (ce, re) ->
  dict_get (_board g) end_ = Some t ->
  color t = _turn g ->
  make_move g start end_ = Ok (false, g).
Proof.
  intros Hs He Ht Hcol. unfold make_move.
  destruct (decide (_game_state g ≠ UNFINISHED)); [done|].
  destruct (_board g !! start) as [[piece|]|]; try done.
  destruct (decide (color piece ≠ _turn g)); [done|].
  destruct (valid_move_coords_Ok piece start end_ (_board g) _ _ _ _ Hs He) as [shape ->].
  simpl. destruct shape; simpl; [|done].
  by rewrite Ht, bool_decide_eq_true_2.
Qed.

Lemma make_move_friendly_fire_witness :
  make_move new_game "a1" "b1" = Ok (false, new_game).
Proof.
  apply (make_move_friendly_fire new_game "a1" "b1" (Wombat TANGERINE) 0 1 1 1);
    vm_compute; reflexivity.
Defined.

(** X9.  After a call that returns [True]: the end square holds the piece
    that stood on the start square, a piece of the side that moved; the
    start square holds [None]; every other key is as before; the turn has
    passed to the other side; a piece that stood on the end square is gone
    and belonged to the other side; the status is "won by the mover" if
    that piece was a Cuttlefish and is still UNFINISHED otherwise. *)
Theorem make_move_effect (g : AnimalGame) (start end_ : string) (g' : AnimalGame) :
  make_move g start end_ = Ok (true, g') ->
  exists piece,
    _board g !! start = Some (Some piece) /\
    color piece = _turn g /\
    _board g' !! end_ = Some (Some piece) /\
    _board g' !! start = Some None /\
    (forall sq, sq <> start -> sq <> end_ -> _board g' !! sq = _board g !! sq) /\
    _turn g' = other_side (_turn g) /\
    (forall t, dict_get (_board g) end_ = Some t -> color t = other_side (_turn g)) /\
    get_game_state g' =
      match dict_get (_board g) end_ with
      | Some (Cuttlefish _) => won_by (_turn g)
      | _ => UNFINISHED
      end.
Proof.
  intros H. apply make_move_true in H
    as (piece & Hst & Hstart & Hcol & Hshape & Hfoe & Hclear & ->).
  pose proof (valid_move_true_neq _ _ _ _ Hshape) as Hne.
  exists piece. unfold moved, get_game_state. simpl.
  split; [done|]. split; [done|].
  split; [by rewrite lookup_insert_ne, lookup_insert_eq|].
  split; [by rewrite lookup_insert_eq|].
  split; [intros sq H1 H2; by rewrite !lookup_insert_ne|].
  split; [done|]. split.
  - intros t Ht. apply neq_other_side. by apply Hfoe.
  - destruct (dict_get (_board g) end_) as [[| | |c]|] eqn:Ht; try done.
    specialize (Hfoe _ eq_refl). simpl in Hfoe.
    rewrite (neq_other_side _ _ Hfoe). by destruct (_turn g).
Qed.

Lemma make_move_effect_witness :
  get_game_state finished_game = won_by (_turn (after wombat_attack)).
Proof.
  destruct (make_move_effect (after wombat_attack) "c6" "d7" finished_game
              ltac:(vm_compute; reflexivity)) as (piece & _ & _ & _ & _ & _ & _ & _ & H).
  exact H.
Defined.

(** X13.  The side that has just moved cannot move again: after a call
    that returned [True], every call that starts from a square holding a
    piece of the side that moved returns [False] and changes nothing,
    whatever the end string. *)
Theorem make_move_not_twice (g : AnimalGame) (start end_ : string) (g' : AnimalGame)
    (start2 end2 : string) (piece2 : Piece) :
  make_move g start end_ = Ok (true, g') ->
  _board g' !! start2 = Some (Some piece2) ->
  color piece2 = _turn g ->
  make_move g' start2 end2 = Ok (false, g').
Proof.
  intros H Hstart2 Hcol2.
  apply make_move_true in H as (piece & _ & _ & _ & _ & _ & _ & ->).
  unfold make_move. rewrite Hstart2.
  destruct (decide (_game_state (moved g start end_ piece) ≠ UNFINISHED)); [done|].
  rewrite decide_True; [done|].
  rewrite Hcol2. simpl. by destruct (_turn g).
Qed.

Lemma make_move_not_twice_witness :
  make_move (after [("c1", "c2")]) "c2" "c3" = Ok (false, after [("c1", "c2")]).
Proof.
  apply (make_move_not_twice new_game "c1" "c2" (after [("c1", "c2")]) "c2" "c3"
           (Emu TANGERINE)); vm_compute; reflexivity.
Defined.

(** ** Counting pieces and turns *)

Lemma pieces_lookup (g : AnimalGame) (sq : string) :
  pieces g !! sq = dict_get (_board g) sq.
Proof. unfold pieces, dict_get. rewrite lookup_omap. by destruct (_board g !! sq). Qed.

Lemma pieces_moved (g : AnimalGame) (start end_ : string) (piece : Piece) :
  pieces (moved g start end_ piece) = delete start (<[end_ := piece]> (pieces g)).
Proof.
  unfold pieces, moved. simpl.
  rewrite (omap_insert_None id _ start None) by done.
  by rewrite (omap_insert_Some id _ end_ (Some piece) piece).
Qed.

(** The number of pieces before a call, from the number after it. *)
Lemma make_move_count (g : AnimalGame) (start end_ : string) (b : bool) (g' : AnimalGame) :
  make_move g start end_ = Ok (b, g') ->
  piece_count g =
    (piece_count g' +
     if b then match dict_get (_board g) end_ with Some _ => 1 | None => 0 end else 0)%nat.
Proof.
  destruct b; intros H.
  2:{ apply make_move_false in H as ->. lia. }
  apply make_move_true in H as (piece & Hst & Hstart & Hcol & Hshape & Hfoe & Hclear & ->).
  pose proof (valid_move_true_neq _ _ _ _ Hshape) as Hne.
  unfold piece_count. rewrite pieces_moved.
  assert (pieces g !! start = Some piece) as Hp.
  { rewrite pieces_lookup. unfold dict_get. by rewrite Hstart. }
  rewrite map_size_delete_Some by (rewrite lookup_insert_ne by done; by eexists).
  rewrite map_size_insert, pieces_lookup.
  assert (size (pieces g) <> 0%nat) as Hsize.
  { intros Hz. apply map_size_empty_inv in Hz. rewrite Hz in Hp. by rewrite lookup_empty in Hp. }
  destruct (dict_get (_board g) end_); simpl; lia.
Qed.

(** X10.  A call never adds a piece to the board: every piece that is on
    the board after the call was on it before; the number of pieces drops
    by one when the call returns [True] on an occupied end square (a
    capture) and is unchanged otherwise. *)
Theorem make_move_piece_count (g : AnimalGame) (start end_ : string) (b : bool)
    (g' : AnimalGame) :
  make_move g start end_ = Ok (b, g') ->
  (forall sq p, _board g' !! sq = Some (Some p) ->
                exists sq', _board g !! sq' = Some (Some p)) /\
  piece_count g =
    (piece_count g' +
     if b then match dict_get (_board g) end_ with Some _ => 1 | None => 0 end else 0)%nat.
Proof.
  intros H. split; [|by apply (make_move_count g start end_ b g')].
  destruct b.
  2:{ apply make_move_false in H as ->. by eauto. }
  apply make_move_true in H as (piece & Hst & Hstart & Hcol & Hshape & Hfoe & Hclear & ->).
  intros sq p. unfold moved. simpl. rewrite !lookup_insert.
  repeat case_decide; try done; [|by eauto].
  intros [= <-]. by exists start.
Qed.

Lemma make_move_piece_count_witness :
  piece_count (after wombat_attack) = (piece_count finished_game + 1)%nat.
Proof.
  apply (proj2 (make_move_piece_count (after wombat_attack) "c6" "d7" true finished_game
                  ltac:(vm_compute; reflexivity))).
Defined.

Lemma successes_cons (b : bool) (rs : list bool) :
  successes (b :: rs) = ((if b then 1 else 0) + successes rs)%nat.
Proof. unfold successes. rewrite filter_cons. by destruct b. Qed.

Lemma play_cons (g : AnimalGame) (start end_ : string) (moves : list (string * string))
    (rs : list bool) (g' : AnimalGame) :
  play g ((start, end_) :: moves) = Ok (rs, g') ->
  exists b g1 rs1,
    make_move g start end_ = Ok (b, g1) /\ play g1 moves = Ok (rs1, g') /\ rs = b :: rs1.
Proof.
  simpl. intros H. apply bind_Ok in H as ([b g1] & Hmove & H).
  apply bind_Ok in H as ([rs1 g2] & Hplay & H). injection H as <- <-.
  by exists b, g1, rs1.
Qed.

(** X11.  Over a sequence of calls the number of pieces never grows, and
    it drops by at most one for each call that returned [True]; a new game
    has 14 pieces. *)
Theorem play_piece_count (g : AnimalGame) (moves : list (string * string))
    (rs : list bool) (g' : AnimalGame) :
  play g moves = Ok (rs, g') ->
  (piece_count g' <= piece_count g <= piece_count g' + successes rs)%nat /\
  piece_count new_game = 14%nat.
Proof.
  intros H. split; [|by vm_compute].
  revert g rs H. induction moves as [|[start end_] moves IH]; intros g rs H.
  - injection H as <- <-. unfold successes. simpl. lia.
  - apply play_cons in H as (b & g1 & rs1 & Hmove & Hplay & ->).
    apply IH in Hplay. apply make_move_count in Hmove as Hcount.
    rewrite successes_cons.
    destruct b, (dict_get (_board g) end_); lia.
Qed.

Lemma play_piece_count_witness :
  (piece_count finished_game <= piece_count new_game <= piece_count finished_game + 5)%nat.
Proof.
  apply (proj1 (play_piece_count new_game (wombat_attack ++ [("c6", "d7")])
                  [true; true; true; true; true] finished_game
                  ltac:(vm_compute; reflexivity))).
Defined.

(** X12.  The turn after a sequence of calls depends only on how many of
    them returned [True]: it is back with the side that started when that
    number is even, and with the other side when it is odd. *)
Theorem play_turn_parity (g : AnimalGame) (moves : list (string * string))
    (rs : list bool) (g' : AnimalGame) :
  play g moves = Ok (rs, g') ->
  _turn g' = if Nat.even (successes rs) then _turn g else other_side (_turn g).
Proof.
  revert g rs. induction moves as [|[start end_] moves IH]; intros g rs H.
  - by injection H as <- <-.
  - apply play_cons in H as (b & g1 & rs1 & Hmove & Hplay & ->).
    apply IH in Hplay. rewrite Hplay, successes_cons.
    destruct b.
    + apply make_move_true in Hmove as (piece & _ & _ & _ & _ & _ & _ & ->).
      change (1 + successes rs1)%nat with (S (successes rs1)).
      rewrite Nat.even_succ, <- Nat.negb_even. unfold moved. simpl.
      destruct (Nat.even (successes rs1)), (_turn g); done.
    + apply make_move_false in Hmove as ->. done.
Qed.

Lemma play_turn_parity_witness : _turn finished_game = AMETHYST.
Proof.
  apply (play_turn_parity new_game (wombat_attack ++ [("c6", "d7")])
           [true; true; true; true; true] finished_game).
  vm_compute. reflexivity.
Defined.

(** ** The status and the Cuttlefish *)

Lemma moved_one_cuttlefish (g : AnimalGame) (start end_ : string) (piece : Piece)
    (side : Color) :
  _board g !! start = Some (Some piece) ->
  start <> end_ ->
  dict_get (_board g) end_ <> Some (Cuttlefish side) ->
  one_cuttlefish g side ->
  one_cuttlefish (moved g start end_ piece) side.
Proof.
  intros Hstart Hne Htarget (sq0 & Hsq0 & Huniq).
  unfold one_cuttlefish, cuttlefish_at in *. unfold moved. simpl.
  destruct (decide (sq0 = start)) as [->|Hsq0start].
  - rewrite Hstart in Hsq0. injection Hsq0 as ->.
    exists end_. split; [by rewrite lookup_insert_ne, lookup_insert_eq|].
    intros sq'. rewrite !lookup_insert. repeat case_decide; try done.
    intros Hsq'. apply Huniq in Hsq'. congruence.
  - assert (sq0 <> end_) as Hsq0end.
    { intros ->. apply Htarget. unfold dict_get. by rewrite Hsq0. }
    exists sq0. split; [by rewrite !lookup_insert_ne|].
    intros sq'. rewrite !lookup_insert. repeat case_decide; try done.
    + subst sq'. intros [= ->]. exfalso. apply Hsq0start. symmetry. by apply Huniq.
    + apply Huniq.
Qed.

Lemma moved_no_cuttlefish (g : AnimalGame) (start end_ : string) (piece : Piece)
    (side : Color) :
  color piece <> side ->
  dict_get (_board g) end_ = Some (Cuttlefish side) ->
  one_cuttlefish g side ->
  ~ has_cuttlefish (moved g start end_ piece) side.
Proof.
  intros Hcol Htarget (sq0 & Hsq0 & Huniq) [sq' Hsq'].
  unfold cuttlefish_at in *. unfold moved in Hsq'. simpl in Hsq'.
  assert (_board g !! end_ = Some (Some (Cuttlefish side))) as Hend.
  { unfold dict_get in Htarget. by destruct (_board g !! end_) as [[|]|]; simplify_eq. }
  rewrite !lookup_insert in Hsq'. repeat case_decide; try done.
  - injection Hsq' as ->. by apply Hcol.
  - apply Huniq in Hsq'. apply Huniq in Hend. congruence.
Qed.

Lemma won_by_inj (a b : Color) : won_by a = won_by b -> a = b.
Proof. by destruct a, b. Qed.

Lemma other_side_involutive (side : Color) : other_side (other_side side) = side.
Proof. by destruct side. Qed.

Lemma reachable_status_cuttlefish (P : string -> Prop) (g : AnimalGame) :
  reachable P g ->
  forall side,
    (_game_state g = UNFINISHED -> one_cuttlefish g side) /\
    (_game_state g = won_by side ->
     one_cuttlefish g side /\ ~ has_cuttlefish g (other_side side)).
Proof.
  induction 1 as [g Hinit|g start end_ [|] g' Hg IH Hs He Hmove]; intros side.
  - apply __init___inv in Hinit as ->. split.
    + intros _. apply new_game_one_cuttlefish.
    + by destruct side.
  - apply make_move_true in Hmove
      as (piece & Hst & Hstart & Hcol & Hshape & Hfoe & Hclear & ->).
    pose proof (valid_move_true_neq _ _ _ _ Hshape) as Hne.
    assert (forall s, one_cuttlefish g s) as Hone by (intros s; by apply (proj1 (IH s))).
    unfold moved at 1 3. simpl.
    destruct (dict_get (_board g) end_) as [t|] eqn:Ht.
    2:{ rewrite Hst. split; [|by destruct side].
        intros _. apply moved_one_cuttlefish; try done. by rewrite Ht. }
    specialize (Hfoe t eq_refl).
    destruct (decide (t = Cuttlefish (other_side side))) as [->|Hother].
    + split; [by destruct side|]. intros _. split.
      * apply moved_one_cuttlefish; try done. rewrite Ht. intros [= E]. by destruct side.
      * apply moved_no_cuttlefish; try done. rewrite Hcol. done.
    + assert (match t with
              | Cuttlefish c => won_by (other_side c)
              | _ => _game_state g
              end <> won_by side) as Hnot.
      { destruct t as [| | |c]; try (rewrite Hst; by destruct side).
        intros E%won_by_inj. apply Hother. rewrite <- E.
        by rewrite other_side_involutive. }
      split; [|done]. intros Hopen. apply moved_one_cuttlefish; try done.
      rewrite Ht. intros [= ->]. by destruct side.
  - apply make_move_false in Hmove as ->. apply IH.
Qed.

Lemma finished_game_reachable : reachable (fun _ => True) finished_game.
Proof.
  apply (reachable_play _ new_game (wombat_attack ++ [("c6", "d7")])
           [true; true; true; true; true] finished_game).
  - apply reachable_new, __init___new_game.
  - repeat constructor.
  - vm_compute. reflexivity.
Qed.

(** X14.  In every game reached from a new game by calls of [make_move],
    whatever the strings, the status tells who still has a Cuttlefish: a
    side's Cuttlefish is off the board exactly when the status is "won by
    the other side", and the winner still has exactly one Cuttlefish. *)
Theorem status_matches_cuttlefish (P : string -> Prop) (g : AnimalGame) (side : Color) :
  reachable P g ->
  (~ has_cuttlefish g side <-> get_game_state g = won_by (other_side side)) /\
  (get_game_state g = won_by side -> one_cuttlefish g side).
Proof.
  intros Hg. pose proof (reachable_status_cuttlefish P g Hg) as Hinv.
  unfold get_game_state. split; [split|].
  - intros Hgone.
    assert (~ one_cuttlefish g side) as Hnone.
    { intros (sq & Hsq & _). apply Hgone. by exists sq. }
    destruct (_game_state g) eqn:Hst.
    + exfalso. by apply Hnone, (proj1 (Hinv side)).
    + destruct side; [|done]. exfalso. by apply Hnone, (proj2 (Hinv TANGERINE)).
    + destruct side; [done|]. exfalso. by apply Hnone, (proj2 (Hinv AMETHYST)).
  - intros Hwon. destruct (proj2 (Hinv (other_side side)) Hwon) as [_ Hgone].
    by rewrite other_side_involutive in Hgone.
  - intros Hwon. by apply (proj2 (Hinv side)).
Qed.

Lemma status_matches_cuttlefish_witness :
  ~ has_cuttlefish finished_game AMETHYST <->
  get_game_state finished_game = won_by (other_side AMETHYST).
Proof.
  apply (proj1 (status_matches_cuttlefish (fun _ => True) finished_game AMETHYST
                  finished_game_reachable)).
Defined.

(** ** What the dump does not show *)

Lemma row_text_ext (board1 board2 : Board) (row : Z) :
  (forall col, 0 <= col < 7 -> cell board1 col row = cell board2 col row) ->
  row_text board1 row = row_text board2 row.
Proof.
  intros H. unfold row_text. change (range 7) with [0; 1; 2; 3; 4; 5; 6]. cbn [foldl].
  by rewrite !H by lia.
Qed.

(** X20.  The dump shows the class of a piece, not its side, and only the
    49 squares of the grid: two games whose grid squares hold pieces with
    the same symbols print the same lines, whatever the colours, the turn,
    the status and the keys outside the grid. *)
Theorem print_board_colour_blind (g1 g2 : AnimalGame) :
  (forall col row, 0 <= col < 7 -> 1 <= row <= 7 ->
     symbol <$> dict_get (_board g1) (square col row) =
     symbol <$> dict_get (_board g2) (square col row)) ->
  print_board g1 = print_board g2.
Proof.
  intros H. rewrite !print_board_eq. do 2 f_equal.
  assert (forall row, 1 <= row <= 7 ->
            row_text (_board g1) row = row_text (_board g2) row) as Hrow.
  { intros row Hrow. apply row_text_ext. intros col Hcol.
    specialize (H col row Hcol Hrow). unfold cell.
    destruct (dict_get (_board g1) _), (dict_get (_board g2) _); simpl in H; congruence. }
  change (range_down 7 0) with [7; 6; 5; 4; 3; 2; 1]. simpl.
  by rewrite !Hrow by lia.
Qed.

Lemma print_board_colour_blind_witness :
  print_board new_game =
  print_board
    {| _board := <["a0" := Some (Emu AMETHYST)]>
                   (<["a1" := Some (Chinchilla AMETHYST)]> (_board new_game));
       _game_state := AMETHYST_WON;
       _turn := AMETHYST |}.
Proof.
  apply print_board_colour_blind. intros col row Hcol Hrow.
  assert (col = 0 \/ col = 1 \/ col = 2 \/ col = 3 \/ col = 4 \/ col = 5 \/ col = 6)
    as Hcols by lia.
  assert (row = 1 \/ row = 2 \/ row = 3 \/ row = 4 \/ row = 5 \/ row = 6 \/ row = 7)
    as Hrows by lia.
  destruct Hcols as [->|[->|[->|[->|[->|[->| ->]]]]]];
    destruct Hrows as [->|[->|[->|[->|[->|[->| ->]]]]]]; vm_compute; reflexivity.
Defined.

(** ** Creating pieces *)

(** X19.  [_create_piece] knows exactly the four names used by the setup:
    for one of them it returns a piece of the requested colour whose symbol
    is C, W, E or U accordingly; for any other name it returns [None]. *)
Theorem _create_piece_names (name : string) (side : Color) :
  (_create_piece name side = None <-> name ∉ row_order) /\
  (forall p, _create_piece name side = Some p ->
     color p = side /\
     (name, symbol p) ∈ [("chinchilla", "C"); ("wombat", "W"); ("emu", "E");
                          ("cuttlefish", "U")]) /\
  Forall (fun n => is_Some (_create_piece n side)) row_order.
Proof.
  unfold _create_piece, row_order. split; [|split].
  - split.
    + intros Hnone Hin.
      repeat (apply elem_of_cons in Hin as [->|Hin]; [discriminate|]).
      by apply elem_of_nil in Hin.
    + intros Hnot. repeat case_decide; try done; subst; exfalso; apply Hnot;
        repeat first [apply list_elem_of_here | apply list_elem_of_further].
  - intros p. repeat case_decide; subst; intros [= <-]; simpl; (split; [done|]);
      repeat first [apply list_elem_of_here | apply list_elem_of_further].
  - repeat constructor; by eexists.
Qed.
